(** * The poll lifecycle of the live-poll backend

    A shallow embedding of [src/server.js]: the single-room poll server
    keeps one poll slot ([currentPoll]), a bounded history
    ([previousPolls]), one timer handle ([endTimer]) and one teacher slot
    ([teacherSocketId]) in module-level variables, and mutates them from
    socket.io event handlers.  Each handler is embedded as a function from
    the state before the call to the state after it together with what the
    handler did: the acknowledgments passed to the responder, the events
    broadcast to the room, and whether it returned or threw.

    Modelling conventions.
    - Values that arrive in payloads are JSON values ([jsval]); JSON numbers
      are taken to be integers.
    - Vote counters, timestamps (milliseconds) and durations (seconds) are
      kept as exact integers: the embedding is that of the source for values
      in the range where JavaScript numbers are exact integers (below 2^53).
    - The percentage of an option and the remaining time of a poll are
      computed, as in the source, in IEEE binary64 arithmetic (Rocq's
      primitive floats), on the doubles nearest to those integers.
    - [uuidv4()] and [Date.now()] are inputs of the events that call them. *)

From Stdlib Require Import ZArith List String Bool Lia.
From Stdlib Require Import Floats DecimalString DecimalNat FinFun.
Import ListNotations.

Local Open Scope string_scope.
Local Open Scope list_scope.

(** ** JavaScript values and the built-ins the handlers use *)

#[local] Set Warnings "-register-all".

Inductive jsval : Type :=
| JUndefined
| JNull
| JBool (b : bool)
| JNum (n : Z)
| JStr (s : string)
| JArr (items : list jsval)
| JObj (fields : list (string * jsval)).

(** [x === v] where [x] is known to be a string. *)
Definition strict_eq_string (x : string) (v : jsval) : bool :=
  match v with
  | JStr s => String.eqb x s
  | _ => false
  end.

(** SameValueZero, the comparison of [Set.prototype.has], between a value
    stored by an earlier message and a value decoded from a later one.
    Primitives compare by type and value.  Arrays and objects compare by
    reference, and every inbound message is decoded into fresh objects, so
    an array or object is never the same as one stored before. *)
Definition same_value_zero (stored incoming : jsval) : bool :=
  match stored, incoming with
  | JUndefined, JUndefined => true
  | JNull, JNull => true
  | JBool a, JBool b => Bool.eqb a b
  | JNum a, JNum b => Z.eqb a b
  | JStr a, JStr b => String.eqb a b
  | _, _ => false
  end.

Definition is_primitive (v : jsval) : bool :=
  match v with
  | JArr _ | JObj _ => false
  | _ => true
  end.

(** A JavaScript [Set] of payload values, in insertion order. *)
Definition jsset := list jsval.

Definition Set_has (s : jsset) (v : jsval) : bool :=
  existsb (fun x => same_value_zero x v) s.

Definition Set_add (s : jsset) (v : jsval) : jsset :=
  if Set_has s v then s else s ++ [v].

Definition Set_size (s : jsset) : nat := List.length s.

(** [idx.toString()] for an array index. *)
Definition toString (idx : nat) : string :=
  NilEmpty.string_of_uint (Nat.to_uint idx).

(** [xs.map((t, idx) => f t idx)], with the index of the first element
    given explicitly. *)
Fixpoint map_from {A B : Type} (f : A -> nat -> B) (idx : nat) (xs : list A)
  : list B :=
  match xs with
  | [] => []
  | t :: rest => f t idx :: map_from f (S idx) rest
  end.

Definition mapi {A B : Type} (f : A -> nat -> B) (xs : list A) : list B :=
  map_from f 0 xs.

(** [xs.find(pred)] returns a reference to the first matching element, which
    the vote handler then mutates; the reference is modelled by the
    element's position. *)
Fixpoint find_index {A : Type} (pred : A -> bool) (xs : list A) : option nat :=
  match xs with
  | [] => None
  | x :: rest =>
      if pred x then Some 0
      else match find_index pred rest with
           | Some i => Some (S i)
           | None => None
           end
  end.

Fixpoint update_at {A : Type} (i : nat) (f : A -> A) (xs : list A) : list A :=
  match xs, i with
  | [], _ => []
  | x :: rest, 0 => f x :: rest
  | x :: rest, S j => x :: update_at j f rest
  end.

(** The double nearest to a counter. *)
Definition to_double (n : nat) : float :=
  PrimFloat.of_uint63 (Uint63.of_Z (Z.of_nat n)).

(** [Math.round]: the integer closest to [x], ties going towards +infinity.
    A finite double is [+/- m * 2^e]; the rounding is computed exactly on
    that representation.  Zeros round to 0; NaN and the infinities, which
    [computeResults] never produces, are mapped to 0. *)
Definition Math_round (x : float) : Z :=
  match Prim2SF x with
  | S754_finite sign m e =>
      let n := if sign then Z.neg m else Z.pos m in
      if (0 <=? e)%Z then (n * 2 ^ e)%Z
      else ((2 * n + 2 ^ (- e)) / 2 ^ (- e + 1))%Z
  | _ => 0%Z
  end.

(** The Number that an integer literal or an integral timestamp denotes:
    the double nearest to [z] (ties to even, infinite beyond the range). *)
Definition Number_of_Z (z : Z) : float :=
  SF2Prim (binary_normalize prec emax z 0 false).

(** [Math.ceil]: the least integral double not below [x].  A finite double
    [+/- m * 2^e] with [e >= 0] is integral; otherwise it lies strictly
    within the range of exact integers and its ceiling is computed on the
    representation.  A negative [x] above -1 gives -0; zeros, infinities and
    NaN are returned as they are. *)
Definition Math_ceil (x : float) : float :=
  match Prim2SF x with
  | S754_finite sign m e =>
      if (0 <=? e)%Z then x
      else
        let n := if sign then Z.neg m else Z.pos m in
        let c := (- ((- n) / 2 ^ (- e)))%Z in
        if (c =? 0)%Z then neg_zero else Number_of_Z c
  | _ => x
  end.

(** [Math.max(a, b)]: NaN if either is NaN, otherwise the larger, +0 being
    larger than -0. *)
Definition Math_max (a b : float) : float :=
  if PrimFloat.is_nan a || PrimFloat.is_nan b then nan
  else if (a <? b)%float then b
  else if (b <? a)%float then a
  else if PrimFloat.get_sign a then b else a.

(** Whether converting [v] to a string, as a template literal does, throws
    a [TypeError].  Primitives convert.  A decoded object converts to
    "[object Object]" through [Object.prototype.toString] unless it has a
    property of its own named "toString": that property shadows the
    inherited method, is not callable (no decoded value is), and
    [Object.prototype.valueOf] returns the object itself, so no primitive is
    obtained.  An array converts through [join], which converts its
    elements. *)
Fixpoint ToString_throws (v : jsval) : bool :=
  match v with
  | JObj fields => existsb (fun kv => String.eqb (fst kv) "toString") fields
  | JArr items => existsb ToString_throws items
  | _ => false
  end.

(** ** Data model *)

Module PollOption.
Record t : Type := mk { id : string; text : jsval; votes : nat }.
End PollOption.

Module Poll.
Record t : Type := mk {
  id : string;
  question : jsval;
  options : list PollOption.t;
  startedAt : Z;
  duration : Z;
  active : bool;
  submissions : jsset
}.
End Poll.

Module ResultOption.
Record t : Type := mk { id : string; text : jsval; votes : nat; pct : Z }.
End ResultOption.

Module Results.
Record t : Type := mk {
  id : string;
  question : jsval;
  options : list ResultOption.t;
  total : nat
}.
End Results.

(** The payload of [create-poll] when it is not [null] or [undefined]: its
    three properties as the handler reads them.  A missing property is
    [JUndefined]; [duration] is absent or an integer number of seconds. *)
Module CreatePayload.
Record t : Type := mk {
  question : jsval;
  options : jsval;
  duration : option Z
}.
End CreatePayload.

(** The payload of [vote] when it can be destructured. *)
Module VotePayload.
Record t : Type := mk {
  pollId : jsval;
  optionId : jsval;
  studentId : jsval;
  studentName : jsval
}.
End VotePayload.

Inductive js_error : Type := TypeError.

(** ** createPoll and computeResults *)

(** [payload.duration || 60]: an absent duration and the number 0 are
    falsy. *)
Definition duration_or_default (d : option Z) : Z :=
  match d with
  | None => 60%Z
  | Some n => if (n =? 0)%Z then 60%Z else n
  end.

Definition new_option (t : jsval) (idx : nat) : PollOption.t :=
  PollOption.mk (toString idx) t 0.

(** [createPoll(payload)].  [payload.options.map] throws a [TypeError] when
    [payload] is [null] or [undefined] ([None]) and when [payload.options]
    is anything but an array. *)
Definition createPoll (payload : option CreatePayload.t) (uuid : string)
    (now : Z) : js_error + Poll.t :=
  match payload with
  | None => inl TypeError
  | Some pl =>
      match CreatePayload.options pl with
      | JArr texts =>
          inr (Poll.mk uuid
                       (CreatePayload.question pl)
                       (mapi new_option texts)
                       now
                       (duration_or_default (CreatePayload.duration pl))
                       true
                       [])
      | _ => inl TypeError
      end
  end.

(** [poll.options.reduce((s, o) => s + o.votes, 0)]. *)
Definition sum_votes (opts : list PollOption.t) : nat :=
  fold_left (fun s o => s + PollOption.votes o) opts 0.

(** [total === 0 ? 0 : Math.round((o.votes/total)*100)]. *)
Definition percentage (votes total : nat) : Z :=
  if Nat.eqb total 0 then 0%Z
  else Math_round ((to_double votes / to_double total) * 100)%float.

Definition computeResults (poll : Poll.t) : Results.t :=
  let total := sum_votes (Poll.options poll) in
  Results.mk (Poll.id poll)
             (Poll.question poll)
             (map (fun o => ResultOption.mk (PollOption.id o)
                                            (PollOption.text o)
                                            (PollOption.votes o)
                                            (percentage (PollOption.votes o) total))
                  (Poll.options poll))
             total.

(** ** Server state and what a handler does *)

(** The module-level variables of the server, and the part of the event
    loop they refer to: the timeouts that are scheduled (handle and delay in
    milliseconds) and the handle the next [setTimeout] returns. *)
Record state : Type := mkState {
  currentPoll : option Poll.t;
  previousPolls : list Results.t;
  endTimer : option nat;
  teacherSocketId : option string;
  scheduled : list (nat * Z);
  nextHandle : nat
}.

Definition initial : state := mkState None [] None None [] 0.

Inductive reason : Type := timeout | manual.

(** Events emitted to the room with [io.to('poll-room').emit]. *)
Inductive broadcast : Type :=
| new_poll (poll : Results.t)
| poll_update (poll : Results.t)
| poll_ended (poll : Results.t) (why : reason)
| student_removed (studentId : jsval).

(** Objects passed to the acknowledgment callback. *)
Inductive ack : Type :=
| Failure (message : string)                (* {success: false, message} *)
| Success                                   (* {success: true} *)
| SuccessPoll (poll : Results.t)             (* {success: true, poll} *)
| NoPoll                                     (* {poll: null} *)
| Current (poll : Results.t) (active : bool) (remaining : float).

(** The failures of the poll state machine, under the names the
    specification gives them. *)
Definition PollInUse : ack := Failure "A poll is already active.".
Definition NoActivePoll : ack := Failure "No active poll".
Definition DuplicateVote : ack := Failure "Already voted".
Definition InvalidOption : ack := Failure "Invalid option".

Inductive completion : Type :=
| Returned
| Threw (e : js_error).

Record output : Type := mkOutput {
  acks : list ack;
  emitted : list broadcast;
  outcome : completion
}.

(** [cb && cb(a)]: the acknowledgment is delivered when a callback was
    supplied ([cb = true]). *)
Definition respond (cb : bool) (a : ack) : list ack :=
  if cb then [a] else [].

Definition silent : output := mkOutput [] [] Returned.
Definition replied (cb : bool) (a : ack) : output :=
  mkOutput (respond cb a) [] Returned.
Definition threw (e : js_error) : output := mkOutput [] [] (Threw e).

Definition set_currentPoll (p : option Poll.t) (s : state) : state :=
  mkState p (previousPolls s) (endTimer s) (teacherSocketId s)
          (scheduled s) (nextHandle s).

Definition set_teacherSocketId (t : option string) (s : state) : state :=
  mkState (currentPoll s) (previousPolls s) (endTimer s) t
          (scheduled s) (nextHandle s).

(** [clearTimeout(h)]. *)
Definition clearTimeout (h : nat) (timers : list (nat * Z)) : list (nat * Z) :=
  filter (fun t => negb (Nat.eqb (fst t) h)) timers.

(** [if (endTimer) { clearTimeout(endTimer); endTimer = null; }]. *)
Definition clear_endTimer (s : state) : state :=
  match endTimer s with
  | Some h =>
      mkState (currentPoll s) (previousPolls s) None (teacherSocketId s)
              (clearTimeout h (scheduled s)) (nextHandle s)
  | None => s
  end.

(** [endTimer = setTimeout(() => finishCurrentPoll('timeout'), delay)]. *)
Definition arm_endTimer (delay : Z) (s : state) : state :=
  mkState (currentPoll s) (previousPolls s) (Some (nextHandle s))
          (teacherSocketId s)
          (scheduled s ++ [(nextHandle s, delay)]) (S (nextHandle s)).

(** [currentPoll && currentPoll.active]. *)
Definition poll_is_active (s : state) : bool :=
  match currentPoll s with
  | Some p => Poll.active p
  | None => false
  end.

Definition deactivate (p : Poll.t) : Poll.t :=
  Poll.mk (Poll.id p) (Poll.question p) (Poll.options p) (Poll.startedAt p)
          (Poll.duration p) false (Poll.submissions p).

(** [previousPolls.unshift(r); if (previousPolls.length > 50) previousPolls.pop();] *)
Definition remember (r : Results.t) (history : list Results.t)
  : list Results.t :=
  let history' := r :: history in
  if Nat.ltb 50 (List.length history') then removelast history' else history'.

Definition finishCurrentPoll (why : reason) (s : state)
  : state * list broadcast :=
  match currentPoll s with
  | None => (s, [])
  | Some p =>
      let closed := deactivate p in
      let s1 :=
        mkState None (remember (computeResults closed) (previousPolls s))
                (endTimer s) (teacherSocketId s) (scheduled s) (nextHandle s) in
      (clear_endTimer s1, [poll_ended (computeResults closed) why])
  end.

(** [remainingSeconds()], with [Date.now()] as [now]: the quotient, the
    difference, the ceiling and the maximum are those of double precision
    arithmetic, and the result is a Number. *)
Definition remainingSeconds (now : Z) (s : state) : float :=
  match currentPoll s with
  | None => 0%float
  | Some p =>
      let elapsed :=
        ((Number_of_Z now - Number_of_Z (Poll.startedAt p)) / 1000)%float in
      Math_max 0 (Math_ceil (Number_of_Z (Poll.duration p) - elapsed)%float)
  end.

(** ** Event handlers *)

(** [socket.on('register-teacher', ...)] on the socket [socketId]. *)
Definition on_register_teacher (socketId : string) (s : state)
  : state * output :=
  (set_teacherSocketId (Some socketId) s, silent).

(** [socket.on('disconnect', ...)]:
    [if (socket.id === teacherSocketId) teacherSocketId = null]. *)
Definition on_disconnect (socketId : string) (s : state) : state * output :=
  match teacherSocketId s with
  | Some t =>
      if String.eqb socketId t then (set_teacherSocketId None s, silent)
      else (s, silent)
  | None => (s, silent)
  end.

(** [socket.on('create-poll', (payload, cb) => ...)]. *)
Definition on_create_poll (payload : option CreatePayload.t) (cb : bool)
    (uuid : string) (now : Z) (s : state) : state * output :=
  if poll_is_active s then (s, replied cb PollInUse)
  else
    match createPoll payload uuid now with
    | inl e => (s, threw e)
    | inr p =>
        let s1 := set_currentPoll (Some p) s in
        let s2 := clear_endTimer s1 in
        let s3 := arm_endTimer (Poll.duration p * 1000) s2 in
        (s3, mkOutput (respond cb (SuccessPoll (computeResults p)))
                      [new_poll (computeResults p)]
                      Returned)
    end.

(** [opt.votes += 1] on the option at position [i], then
    [currentPoll.submissions.add(studentId)]. *)
Definition count_vote (i : nat) (studentId : jsval) (p : Poll.t) : Poll.t :=
  Poll.mk (Poll.id p) (Poll.question p)
          (update_at i
             (fun o => PollOption.mk (PollOption.id o) (PollOption.text o)
                                     (PollOption.votes o + 1))
             (Poll.options p))
          (Poll.startedAt p) (Poll.duration p) (Poll.active p)
          (Set_add (Poll.submissions p) studentId).

(** The text of the option a vote was counted for. *)
Definition text_at (i : nat) (opts : list PollOption.t) : jsval :=
  match nth_error opts i with
  | Some o => PollOption.text o
  | None => JUndefined
  end.

(** [console.log(`${studentName} voted option ${opt.text}`)]: building the
    string converts both values, and throws when one of them cannot be
    converted.  (The other [console.log] calls of the file pass their values
    as separate arguments, which are inspected, not converted.) *)
Definition log_vote (studentName text : jsval) : completion :=
  if ToString_throws studentName || ToString_throws text
  then Threw TypeError else Returned.

(** [socket.on('vote', ({ pollId, optionId, studentId, studentName }, cb) => ...)].
    Destructuring a payload that is [null] or [undefined] ([None]) throws.
    An admitted vote is counted, broadcast and acknowledged before the
    handler writes its log line. *)
Definition on_vote (payload : option VotePayload.t) (cb : bool) (s : state)
  : state * output :=
  match payload with
  | None => (s, threw TypeError)
  | Some v =>
      match currentPoll s with
      | None => (s, replied cb NoActivePoll)
      | Some p =>
          if negb (Poll.active p)
             || negb (strict_eq_string (Poll.id p) (VotePayload.pollId v))
          then (s, replied cb NoActivePoll)
          else if Set_has (Poll.submissions p) (VotePayload.studentId v)
          then (s, replied cb DuplicateVote)
          else
            match find_index
                    (fun o => strict_eq_string (PollOption.id o)
                                               (VotePayload.optionId v))
                    (Poll.options p) with
            | None => (s, replied cb InvalidOption)
            | Some i =>
                let p' := count_vote i (VotePayload.studentId v) p in
                (set_currentPoll (Some p') s,
                 mkOutput (respond cb Success)
                          [poll_update (computeResults p')]
                          (log_vote (VotePayload.studentName v)
                                    (text_at i (Poll.options p))))
            end
      end
  end.

(** [socket.on('end-poll-now', (cb) => ...)]. *)
Definition on_end_poll_now (cb : bool) (s : state) : state * output :=
  if negb (poll_is_active s) then (s, replied cb NoActivePoll)
  else
    let (s', events) := finishCurrentPoll manual s in
    (s', mkOutput (respond cb Success) events Returned).

(** [socket.on('remove-student', ({ studentId }, cb) => ...)]; the payload
    is [None] when it is [null] or [undefined]. *)
Definition on_remove_student (payload : option jsval) (cb : bool) (s : state)
  : state * output :=
  match payload with
  | None => (s, threw TypeError)
  | Some studentId =>
      (s, mkOutput (respond cb Success) [student_removed studentId] Returned)
  end.

(** [socket.on('get-current-poll', (cb) => ...)]. *)
Definition on_get_current_poll (cb : bool) (now : Z) (s : state)
  : state * output :=
  match currentPoll s with
  | None => (s, replied cb NoPoll)
  | Some p =>
      (s, replied cb (Current (computeResults p) (Poll.active p)
                              (remainingSeconds now s)))
  end.

(** The callback given to [setTimeout] runs when the timeout with handle
    [h] is still scheduled: the event loop drops it from its queue and calls
    [finishCurrentPoll('timeout')]. *)
Definition on_timer (h : nat) (s : state) : state * output :=
  if existsb (fun t => Nat.eqb (fst t) h) (scheduled s) then
    let fired :=
      mkState (currentPoll s) (previousPolls s) (endTimer s)
              (teacherSocketId s) (clearTimeout h (scheduled s))
              (nextHandle s) in
    let (s', events) := finishCurrentPoll timeout fired in
    (s', mkOutput [] events Returned)
  else (s, silent).

(** ** The server as a transition system *)

(** What the event loop can deliver: the socket.io messages the server
    listens to, with their arguments, and the expiry of a timeout.  [cb]
    tells whether the client supplied an acknowledgment callback; a message
    whose callback argument is some value other than a function is not
    modelled.  The two HTTP routes only read the state (one of them sends
    [previousPolls]) and are not events of the model. *)
Inductive event : Type :=
| register_teacher (socketId : string)
| create_poll (payload : option CreatePayload.t) (cb : bool)
              (uuid : string) (now : Z)
| vote (payload : option VotePayload.t) (cb : bool)
| end_poll_now (cb : bool)
| remove_student (payload : option jsval) (cb : bool)
| get_current_poll (cb : bool) (now : Z)
| disconnect (socketId : string)
| timer_fires (h : nat).

Definition step (e : event) (s : state) : state * output :=
  match e with
  | register_teacher socketId => on_register_teacher socketId s
  | create_poll payload cb uuid now => on_create_poll payload cb uuid now s
  | vote payload cb => on_vote payload cb s
  | end_poll_now cb => on_end_poll_now cb s
  | remove_student payload cb => on_remove_student payload cb s
  | get_current_poll cb now => on_get_current_poll cb now s
  | disconnect socketId => on_disconnect socketId s
  | timer_fires h => on_timer h s
  end.

(** Running a sequence of events; the outputs are collected in order. *)
Fixpoint run (es : list event) (s : state) : state * list output :=
  match es with
  | [] => (s, [])
  | e :: rest =>
      let (s1, o) := step e s in
      let (s2, os) := run rest s1 in
      (s2, o :: os)
  end.

Inductive reachable : state -> Prop :=
| reachable_initial : reachable initial
| reachable_step (s : state) (e : event) :
    reachable s -> reachable (fst (step e s)).

(** ** Vocabulary of the properties *)

(** Where the poll slot ends up after one event: unchanged, emptied, a
    freshly created poll, or the same poll with one more vote. *)
Inductive slot_change (s : state) : option Poll.t -> Prop :=
| slot_same : slot_change s (currentPoll s)
| slot_emptied : slot_change s None
| slot_created payload uuid now p :
    poll_is_active s = false ->
    createPoll payload uuid now = inr p ->
    slot_change s (Some p)
| slot_voted p v i :
    currentPoll s = Some p ->
    Poll.active p = true ->
    strict_eq_string (Poll.id p) (VotePayload.pollId v) = true ->
    Set_has (Poll.submissions p) (VotePayload.studentId v) = false ->
    find_index (fun o => strict_eq_string (PollOption.id o)
                                          (VotePayload.optionId v))
               (Poll.options p) = Some i ->
    slot_change s (Some (count_vote i (VotePayload.studentId v) p)).

(** The votes counted for the active poll are as many as its recorded
    voters. *)
Definition votes_match (s : state) : Prop :=
  forall p, currentPoll s = Some p -> Poll.active p = true ->
            sum_votes (Poll.options p) = Set_size (Poll.submissions p).

(** A poll held in the slot is active. *)
Definition slot_active (s : state) : Prop :=
  forall p, currentPoll s = Some p -> Poll.active p = true.

(** The first check of the vote handler fails: no poll, an inactive poll,
    or a poll whose id is not [pollId]. *)
Definition no_such_active_poll (s : state) (pollId : jsval) : Prop :=
  match currentPoll s with
  | None => True
  | Some p =>
      Poll.active p = false \/ strict_eq_string (Poll.id p) pollId = false
  end.

(** [optionId] is the id of none of the options. *)
Definition no_such_option (p : Poll.t) (optionId : jsval) : Prop :=
  forall o, In o (Poll.options p) ->
            strict_eq_string (PollOption.id o) optionId = false.

(** [optionId] is the id of some option. *)
Definition option_exists (p : Poll.t) (optionId : jsval) : Prop :=
  exists o, In o (Poll.options p)
            /\ strict_eq_string (PollOption.id o) optionId = true.

(** The deduplication property as the specification words it, for two
    votes answered through their callbacks: the first is admitted, the
    second is refused as a duplicate and changes nothing. *)
Definition second_vote_is_duplicate (s : state) (v1 v2 : VotePayload.t)
  : Prop :=
  acks (snd (step (vote (Some v1) true) s)) = [Success]
  /\ acks (snd (step (vote (Some v2) true)
                     (fst (step (vote (Some v1) true) s))))
     = [DuplicateVote]
  /\ fst (step (vote (Some v2) true) (fst (step (vote (Some v1) true) s)))
     = fst (step (vote (Some v1) true) s).

(** The integer nearest to [100 * votes / total] computed on exact
    rationals, a tie going up: [floor((200 * votes + total) / (2 * total))].
    This is rounding half up in exact arithmetic, to compare [percentage]
    with. *)
Definition nearest_percent (votes total : nat) : Z :=
  ((200 * Z.of_nat votes + Z.of_nat total) / (2 * Z.of_nat total))%Z.

(** [100 * votes / total] lies exactly halfway between two integers. *)
Definition is_tie (votes total : nat) : bool :=
  ((200 * Z.of_nat votes) mod (2 * Z.of_nat total) =? Z.of_nat total)%Z.

(** For every count of votes up to [total], [percentage] is the nearest
    integer unless the exact percentage is a tie. *)
Definition agrees_off_ties (total : nat) : bool :=
  forallb (fun votes =>
             is_tie votes total
             || (percentage votes total =? nearest_percent votes total)%Z)
          (seq 0 (S total)).

(** The snapshots of the polls closed by a handler: those it broadcast with
    [poll-ended], in order. *)
Definition closed_in (o : output) : list Results.t :=
  flat_map (fun b => match b with
                     | poll_ended r _ => [r]
                     | _ => []
                     end)
           (emitted o).

(** The same over the outputs of a run, oldest first. *)
Definition closed (os : list output) : list Results.t :=
  flat_map closed_in os.

(** A [create-poll] payload from which [createPoll] cannot read an array of
    options: the payload is [null] or [undefined], or its [options]
    property is missing or is not an array. *)
Definition malformed_create (payload : option CreatePayload.t) : Prop :=
  match payload with
  | None => True
  | Some pl => forall texts, CreatePayload.options pl <> JArr texts
  end.

(** Failing closed, as the specification asks of a malformed call answered
    through its callback: the handler returns normally, hands a failure to
    the callback and leaves the state alone. *)
Definition fails_closed (e : event) (s : state) : Prop :=
  fst (step e s) = s
  /\ outcome (snd (step e s)) = Returned
  /\ exists message, acks (snd (step e s)) = [Failure message].

(** Events that leave a registration of [socketId] in place: anything but
    a registration and the disconnection of [socketId] itself. *)
Definition keeps_registration (socketId : string) (e : event) : Prop :=
  match e with
  | register_teacher _ => False
  | disconnect other => other <> socketId
  | _ => True
  end.

(** What the snapshot lists for an option of a poll with [total] votes: its
    id, text and votes, and as percentage 0 when there is no vote and
    otherwise [Math.round] of the double [(votes / total) * 100]. *)
Definition entry_of (total : nat) (o : PollOption.t) (r : ResultOption.t)
  : Prop :=
  ResultOption.id r = PollOption.id o
  /\ ResultOption.text r = PollOption.text o
  /\ ResultOption.votes r = PollOption.votes o
  /\ ResultOption.pct r
     = if Nat.eqb total 0 then 0%Z
       else Math_round ((to_double (PollOption.votes o) / to_double total)
                        * 100)%float.


(** ** Scenarios

    Concrete payloads, event sequences and states at which the theorems
    below are instantiated. *)

Definition two_options : CreatePayload.t :=
  CreatePayload.mk (JStr "Q") (JArr [JStr "A"; JStr "B"]) (Some 1%Z).

Definition ballot (pollId optionId : string) (studentId : jsval)
  : VotePayload.t :=
  VotePayload.mk (JStr pollId) (JStr optionId) studentId (JStr "name").

Definition created : state :=
  fst (step (create_poll (Some two_options) true "p1" 1000%Z) initial).

Definition voted_once : state :=
  fst (step (vote (Some (ballot "p1" "0" (JStr "s1"))) true) created).

Definition poll_voted_once : Poll.t :=
  Poll.mk "p1" (JStr "Q")
          [PollOption.mk "0" (JStr "A") 1; PollOption.mk "1" (JStr "B") 0]
          1000%Z 1%Z true [JStr "s1"].

(** [count] votes for one option, cast by the voters "s<first>",
    "s<first+1>", ... and answered through their callbacks. *)
Definition ballots (pollId optionId : string) (first count : nat)
  : list event :=
  map (fun k => vote (Some (ballot pollId optionId (JStr ("s" ++ toString k))))
                     true)
      (seq first count).

(** A poll with two options after forty voters: 23 voted for option "0"
    and 17 for option "1". *)
Definition split_23_17 : state :=
  fst (run (create_poll (Some two_options) true "p1" 1000%Z
            :: ballots "p1" "0" 0 23 ++ ballots "p1" "1" 23 17)
           initial).

(** One cycle: the poll "p<k>" is created and closed at once. *)
Definition cycle (k : nat) : list event :=
  [create_poll (Some two_options) true ("p" ++ toString k)%string 1000%Z;
   end_poll_now true].

(** A poll with the votes 3, 1 and 0. *)
Definition poll_3_1_0 : Poll.t :=
  Poll.mk "p1" (JStr "Q")
          [PollOption.mk "0" (JStr "A") 3; PollOption.mk "1" (JStr "B") 1;
           PollOption.mk "2" (JStr "C") 0]
          1000%Z 60%Z true [JStr "s1"; JStr "s2"; JStr "s3"; JStr "s4"].

(** A poll of 2^45 seconds, started at time 0. *)
Definition long_poll : state :=
  fst (step (create_poll
               (Some (CreatePayload.mk (JStr "Q") (JArr [JStr "A"])
                                       (Some (2 ^ 45)%Z)))
               true "p1" 0%Z)
            initial).


(** ** Vocabulary of the further properties *)

(** The options carry their positions as ids: "0", "1", ... in order. *)
Definition well_indexed (p : Poll.t) : Prop :=
  map PollOption.id (Poll.options p)
  = map toString (seq 0 (List.length (Poll.options p))).

(** The option after [opt.votes += 1]. *)
Definition one_more_vote (o : PollOption.t) : PollOption.t :=
  PollOption.mk (PollOption.id o) (PollOption.text o) (PollOption.votes o + 1).

(** One timeout is scheduled while a poll is in the slot, the one whose
    handle is in [endTimer], with the poll's duration in milliseconds as
    delay; none is scheduled and [endTimer] is [null] while the slot is
    empty. *)
Definition timer_matches_slot (s : state) : Prop :=
  match currentPoll s with
  | None => endTimer s = None /\ scheduled s = []
  | Some p =>
      exists h, endTimer s = Some h
                /\ scheduled s = [(h, (Poll.duration p * 1000)%Z)]
  end.

(** Everything in the state but the teacher slot. *)
Definition poll_part (s : state)
  : option Poll.t * list Results.t * option nat * list (nat * Z) * nat :=
  (currentPoll s, previousPolls s, endTimer s, scheduled s, nextHandle s).

(** The events that can change the poll, the history or the timers. *)
Definition concerns_poll (e : event) : bool :=
  match e with
  | create_poll _ _ _ _ | vote _ _ | end_poll_now _ | timer_fires _ => true
  | _ => false
  end.

(** The total of a snapshot is the sum of the votes it lists. *)
Definition snapshot_consistent (r : Results.t) : Prop :=
  Results.total r
  = fold_left (fun s o => s + ResultOption.votes o) (Results.options r) 0.

(** [pct] is an integer nearest to [100 * votes / total]: it differs from
    the exact percentage by at most one half. *)
Definition is_nearest (votes total : nat) (pct : Z) : bool :=
  (Z.abs (2 * (Z.of_nat total * pct - 100 * Z.of_nat votes))
   <=? Z.of_nat total)%Z.

Definition nearest_upto (total : nat) : bool :=
  forallb (fun votes => is_nearest votes total (percentage votes total))
          (seq 0 (S total)).

(** A vote event for each payload of a list, each with its own callback
    flag. *)
Definition votes_of (vs : list (VotePayload.t * bool)) : list event :=
  map (fun vc => vote (Some (fst vc)) (snd vc)) vs.

(** ** Properties of the built-ins *)

Lemma fold_votes_acc (opts : list PollOption.t) (a : nat) :
  fold_left (fun s o => s + PollOption.votes o) opts a
  = a + sum_votes opts.
Proof.
  unfold sum_votes. revert a.
  induction opts as [|o rest IH]; intro a; simpl.
  - lia.
  - rewrite IH, (IH (PollOption.votes o)). lia.
Qed.

Lemma sum_votes_cons (o : PollOption.t) (rest : list PollOption.t) :
  sum_votes (o :: rest) = PollOption.votes o + sum_votes rest.
Proof.
  unfold sum_votes at 1. simpl. apply fold_votes_acc.
Qed.

Lemma sum_votes_new_options (texts : list jsval) (idx : nat) :
  sum_votes (map_from new_option idx texts) = 0.
Proof.
  revert idx. induction texts as [|t rest IH]; intro idx; simpl.
  - reflexivity.
  - rewrite sum_votes_cons, IH. reflexivity.
Qed.

Lemma sum_votes_update_at (pred : PollOption.t -> bool)
    (opts : list PollOption.t) (i : nat) :
  find_index pred opts = Some i ->
  sum_votes
    (update_at i
       (fun o => PollOption.mk (PollOption.id o) (PollOption.text o)
                               (PollOption.votes o + 1))
       opts)
  = S (sum_votes opts).
Proof.
  revert i. induction opts as [|o rest IH]; intros i Hfind; simpl in Hfind.
  - discriminate.
  - destruct (pred o).
    + injection Hfind as <-. simpl. rewrite !sum_votes_cons. simpl. lia.
    + destruct (find_index pred rest) as [j|]; [|discriminate].
      injection Hfind as <-. simpl. rewrite !sum_votes_cons.
      rewrite (IH j eq_refl). lia.
Qed.

Lemma Set_size_add (s : jsset) (v : jsval) :
  Set_has s v = false -> Set_size (Set_add s v) = S (Set_size s).
Proof.
  intro Hnew. unfold Set_add, Set_size. rewrite Hnew.
  rewrite length_app. simpl. lia.
Qed.

Lemma same_value_zero_refl (v : jsval) :
  is_primitive v = true -> same_value_zero v v = true.
Proof.
  destruct v; simpl; intro H; try discriminate; try reflexivity.
  - apply Bool.eqb_reflx.
  - apply Z.eqb_refl.
  - apply String.eqb_refl.
Qed.

Lemma Set_has_add (s : jsset) (v : jsval) :
  is_primitive v = true -> Set_has (Set_add s v) v = true.
Proof.
  intro Hprim. unfold Set_add.
  destruct (Set_has s v) eqn:Hhas; [exact Hhas|].
  unfold Set_has. rewrite existsb_app. simpl.
  rewrite (same_value_zero_refl v Hprim).
  rewrite orb_true_r. reflexivity.
Qed.

(** ** Properties of the close routine and of the timer bookkeeping *)

Lemma currentPoll_clear_endTimer (s : state) :
  currentPoll (clear_endTimer s) = currentPoll s.
Proof. unfold clear_endTimer. destruct (endTimer s); reflexivity. Qed.

Lemma previousPolls_clear_endTimer (s : state) :
  previousPolls (clear_endTimer s) = previousPolls s.
Proof. unfold clear_endTimer. destruct (endTimer s); reflexivity. Qed.

Lemma teacherSocketId_clear_endTimer (s : state) :
  teacherSocketId (clear_endTimer s) = teacherSocketId s.
Proof. unfold clear_endTimer. destruct (endTimer s); reflexivity. Qed.

Create Rewrite HintDb clear_endTimer.
#[local] Hint Rewrite currentPoll_clear_endTimer previousPolls_clear_endTimer
  teacherSocketId_clear_endTimer : clear_endTimer.

(** Case analysis on the event, one goal per handler. *)
Ltac handler_cases e :=
  destruct e as [sid|payload cb uuid now|payload cb|cb|payload cb|cb now|sid|h];
  simpl.

(** Replaces a call of the close routine by its result [(s', evs)], keeping
    the fact [lemma why s] about it. *)
Ltac close_with lemma :=
  match goal with
  | |- context [finishCurrentPoll ?why ?s] =>
      let H := fresh "Hclose" in
      pose proof (lemma why s) as H;
      destruct (finishCurrentPoll why s) as [s' evs];
      simpl in *
  end.

Lemma finishCurrentPoll_discards (why : reason) (s : state) :
  currentPoll (fst (finishCurrentPoll why s)) = None.
Proof.
  unfold finishCurrentPoll. destruct (currentPoll s) as [p|] eqn:Hp; simpl.
  - apply currentPoll_clear_endTimer.
  - exact Hp.
Qed.

Lemma slot_same_eq (s : state) (x : option Poll.t) :
  x = currentPoll s -> slot_change s x.
Proof. intros ->. apply slot_same. Qed.

Lemma step_slot_change (e : event) (s : state) :
  slot_change s (currentPoll (fst (step e s))).
Proof.
  handler_cases e.
  - apply slot_same.
  - unfold on_create_poll.
    destruct (poll_is_active s) eqn:Hact; [apply slot_same|].
    destruct (createPoll payload uuid now) as [err|p] eqn:Hc; [apply slot_same|].
    simpl. autorewrite with clear_endTimer. simpl.
    eapply slot_created; eassumption.
  - unfold on_vote. destruct payload as [v|]; [|apply slot_same].
    destruct (currentPoll s) as [p|] eqn:Hp;
      [|apply slot_same_eq; simpl; congruence].
    destruct (Poll.active p) eqn:Hact; simpl;
      [|apply slot_same_eq; simpl; congruence].
    destruct (strict_eq_string (Poll.id p) (VotePayload.pollId v)) eqn:Hid; simpl;
      [|apply slot_same_eq; simpl; congruence].
    destruct (Set_has (Poll.submissions p) (VotePayload.studentId v)) eqn:Hdup;
      [apply slot_same_eq; simpl; congruence|].
    destruct (find_index _ (Poll.options p)) as [i|] eqn:Hfind;
      [|apply slot_same_eq; simpl; congruence].
    simpl. eapply slot_voted; eassumption.
  - unfold on_end_poll_now.
    destruct (poll_is_active s); simpl; [|apply slot_same].
    close_with finishCurrentPoll_discards.
    rewrite Hclose. apply slot_emptied.
  - unfold on_remove_student. destruct payload; apply slot_same.
  - unfold on_get_current_poll. destruct (currentPoll s) eqn:Hp;
      apply slot_same_eq; simpl; congruence.
  - unfold on_disconnect. destruct (teacherSocketId s) as [t|]; [|apply slot_same].
    destruct (String.eqb sid t); apply slot_same_eq; reflexivity.
  - unfold on_timer.
    destruct (existsb _ (scheduled s)); [|apply slot_same].
    close_with finishCurrentPoll_discards.
    rewrite Hclose. apply slot_emptied.
Qed.

(** ** Invariants of the poll slot *)

Lemma createPoll_fresh payload uuid now p :
  createPoll payload uuid now = inr p ->
  Poll.id p = uuid /\ Poll.startedAt p = now /\ Poll.active p = true
  /\ Poll.submissions p = [] /\ sum_votes (Poll.options p) = 0.
Proof.
  unfold createPoll. destruct payload as [pl|]; [|discriminate].
  destruct (CreatePayload.options pl); try discriminate.
  intro H. injection H as <-. simpl.
  repeat split. apply sum_votes_new_options.
Qed.

Lemma votes_match_step (e : event) (s : state) :
  votes_match s -> votes_match (fst (step e s)).
Proof.
  intros Hs p Hp Hact.
  pose proof (step_slot_change e s) as Hch. rewrite Hp in Hch.
  inversion Hch; subst.
  - apply Hs; assumption.
  - match goal with
    | Hc : createPoll _ _ _ = inr _ |- _ =>
        destruct (createPoll_fresh _ _ _ _ Hc) as (_ & _ & _ & Hsub & Hsum)
    end.
    rewrite Hsub, Hsum. reflexivity.
  - simpl.
    match goal with
    | Hfind : find_index _ _ = Some _, Hnew : Set_has _ _ = false |- _ =>
        rewrite (sum_votes_update_at _ _ _ Hfind), (Set_size_add _ _ Hnew)
    end.
    f_equal. apply Hs; assumption.
Qed.

Lemma slot_active_step (e : event) (s : state) :
  slot_active s -> slot_active (fst (step e s)).
Proof.
  intros Hs p Hp.
  pose proof (step_slot_change e s) as Hch. rewrite Hp in Hch.
  inversion Hch; subst.
  - apply Hs. assumption.
  - match goal with
    | Hc : createPoll _ _ _ = inr _ |- _ => apply (createPoll_fresh _ _ _ _ Hc)
    end.
  - simpl. assumption.
Qed.

Lemma reachable_votes_match (s : state) : reachable s -> votes_match s.
Proof.
  induction 1 as [|s e _ IH].
  - intros p Hp. discriminate.
  - apply votes_match_step, IH.
Qed.

Lemma reachable_slot_active (s : state) : reachable s -> slot_active s.
Proof.
  induction 1 as [|s e _ IH].
  - intros p Hp. discriminate.
  - apply slot_active_step, IH.
Qed.

Lemma reachable_run (es : list event) (s : state) :
  reachable s -> reachable (fst (run es s)).
Proof.
  revert s. induction es as [|e rest IH]; intros s Hs; simpl.
  - exact Hs.
  - pose proof (reachable_step s e Hs) as H1.
    destruct (step e s) as [s1 o]. simpl in H1.
    specialize (IH s1 H1).
    destruct (run rest s1) as [s2 os]. exact IH.
Qed.

Lemma reachable_created : reachable created.
Proof. apply reachable_step, reachable_initial. Qed.

Lemma reachable_voted_once : reachable voted_once.
Proof. apply reachable_step, reachable_created. Qed.

(** ** The vote invariant *)

(** C1. In every reachable state, the vote counters of the active poll add
    up to the number of identifiers in its submissions set; and every event
    the server handles (create, vote, manual close, timeout, query, and the
    others) preserves that equality, from any state in which it holds. *)
Theorem votes_equal_submissions :
  (forall s, reachable s ->
     forall p, currentPoll s = Some p -> Poll.active p = true ->
       sum_votes (Poll.options p) = Set_size (Poll.submissions p))
  /\ (forall s e, votes_match s -> votes_match (fst (step e s))).
Proof.
  split.
  - intros s Hs. exact (reachable_votes_match s Hs).
  - intros s e. apply votes_match_step.
Qed.

Lemma votes_equal_submissions_witness :
  currentPoll voted_once = Some poll_voted_once
  /\ sum_votes (Poll.options poll_voted_once)
     = Set_size (Poll.submissions poll_voted_once)
  /\ votes_match (fst (step (end_poll_now true) initial)).
Proof.
  split; [reflexivity|]. split.
  - apply (proj1 votes_equal_submissions voted_once reachable_voted_once);
      reflexivity.
  - apply (proj2 votes_equal_submissions initial (end_poll_now true)).
    intros p Hp. discriminate.
Defined.

(** ** Creating a poll while one is active *)

(** C2. When the slot holds an active poll, [create-poll] changes nothing
    (poll, history, timer and the rest of the state are those before the
    call), broadcasts nothing, and returns normally after handing the
    [PollInUse] failure to the acknowledgment callback; this holds for every
    payload, well formed or not. *)
Theorem create_while_active_fails
    (s : state) (p : Poll.t) (payload : option CreatePayload.t) (cb : bool)
    (uuid : string) (now : Z) :
  currentPoll s = Some p ->
  Poll.active p = true ->
  fst (step (create_poll payload cb uuid now) s) = s
  /\ snd (step (create_poll payload cb uuid now) s)
     = mkOutput (respond cb PollInUse) [] Returned.
Proof.
  intros Hp Hact. simpl. unfold on_create_poll, poll_is_active.
  rewrite Hp, Hact. split; reflexivity.
Qed.

Lemma create_while_active_fails_witness :
  fst (step (create_poll (Some two_options) true "p2" 2000%Z) voted_once)
  = voted_once
  /\ snd (step (create_poll (Some two_options) true "p2" 2000%Z) voted_once)
     = mkOutput [Failure "A poll is already active."] [] Returned.
Proof.
  apply (create_while_active_fails voted_once poll_voted_once); reflexivity.
Defined.

(** ** Admitting a vote *)

Lemma find_index_none {A : Type} (pred : A -> bool) (xs : list A) :
  find_index pred xs = None <-> (forall x, In x xs -> pred x = false).
Proof.
  induction xs as [|x rest IH]; simpl.
  - split; [intros _ y []|reflexivity].
  - destruct (pred x) eqn:Hx.
    + split; [discriminate|].
      intro H. rewrite (H x (or_introl eq_refl)) in Hx. discriminate.
    + destruct (find_index pred rest) as [i|].
      * split; [discriminate|].
        intro H. assert (Hrest : Some i = None); [|discriminate].
        apply IH. intros y Hy. apply H. right. exact Hy.
      * split; [|reflexivity].
        intros _ y [<-|Hy]; [exact Hx|]. apply IH; [reflexivity|exact Hy].
Qed.

(** C3. The vote handler checks its preconditions in order and the first
    failure decides the answer: no active poll with the given id gives
    [NoActivePoll], whatever the voter and the option; otherwise a voter
    already in the submissions set gives [DuplicateVote], whatever the
    option; otherwise an option id that matches no option gives
    [InvalidOption].  In each of these cases the state is left as it was and
    nothing is broadcast. *)
Theorem vote_checks_in_order (s : state) (v : VotePayload.t) (cb : bool) :
  (no_such_active_poll s (VotePayload.pollId v) ->
     step (vote (Some v) cb) s = (s, replied cb NoActivePoll))
  /\ (forall p,
        currentPoll s = Some p -> Poll.active p = true ->
        strict_eq_string (Poll.id p) (VotePayload.pollId v) = true ->
        Set_has (Poll.submissions p) (VotePayload.studentId v) = true ->
        step (vote (Some v) cb) s = (s, replied cb DuplicateVote))
  /\ (forall p,
        currentPoll s = Some p -> Poll.active p = true ->
        strict_eq_string (Poll.id p) (VotePayload.pollId v) = true ->
        Set_has (Poll.submissions p) (VotePayload.studentId v) = false ->
        no_such_option p (VotePayload.optionId v) ->
        step (vote (Some v) cb) s = (s, replied cb InvalidOption)).
Proof.
  simpl. unfold on_vote, no_such_active_poll. repeat split.
  - destruct (currentPoll s) as [p|]; [|reflexivity].
    intros [Hact|Hid]; [rewrite Hact|rewrite Hid, orb_true_r]; reflexivity.
  - intros p Hp Hact Hid Hdup. rewrite Hp, Hact, Hid, Hdup. reflexivity.
  - intros p Hp Hact Hid Hnew Hopt. rewrite Hp, Hact, Hid, Hnew. simpl.
    apply find_index_none in Hopt. rewrite Hopt. reflexivity.
Qed.

Lemma vote_checks_in_order_witness :
  step (vote (Some (ballot "other" "7" (JStr "s1"))) true) voted_once
  = (voted_once, replied true NoActivePoll)
  /\ step (vote (Some (ballot "p1" "7" (JStr "s1"))) true) voted_once
     = (voted_once, replied true DuplicateVote)
  /\ step (vote (Some (ballot "p1" "7" (JStr "s2"))) true) voted_once
     = (voted_once, replied true InvalidOption).
Proof.
  split; [|split].
  - apply (proj1 (vote_checks_in_order voted_once _ true)).
    right. reflexivity.
  - apply (proj1 (proj2 (vote_checks_in_order voted_once _ true))
                 poll_voted_once); reflexivity.
  - apply (proj2 (proj2 (vote_checks_in_order voted_once _ true))
                 poll_voted_once); try reflexivity.
    intros o [<-|[<-|[]]]; reflexivity.
Defined.

(** ** Voting twice with the same identifier *)

Lemma find_index_some {A : Type} (pred : A -> bool) (xs : list A) :
  (exists x, In x xs /\ pred x = true) -> exists i, find_index pred xs = Some i.
Proof.
  intros (x & Hin & Hx).
  destruct (find_index pred xs) as [i|] eqn:Hfind; [exists i; reflexivity|].
  rewrite (proj1 (find_index_none pred xs) Hfind x Hin) in Hx. discriminate.
Qed.

(** C4, as the code has it. For an active poll and a voter identifier that
    is a primitive value (string, number, boolean, null or undefined), take
    two votes with that identifier and the poll's id, the first for an
    existing option.  The second vote is refused with [DuplicateVote] and
    leaves the state exactly as the first left it.  When the voter had not
    voted before, the first vote is admitted: it is acknowledged with
    [{success: true}], adds one to the vote total and records the voter
    once; when the voter had, the first vote is refused as a duplicate as
    well. *)
Theorem primitive_voter_counted_once
    (s : state) (p : Poll.t) (v1 v2 : VotePayload.t) (cb1 cb2 : bool) :
  currentPoll s = Some p ->
  Poll.active p = true ->
  strict_eq_string (Poll.id p) (VotePayload.pollId v1) = true ->
  strict_eq_string (Poll.id p) (VotePayload.pollId v2) = true ->
  VotePayload.studentId v2 = VotePayload.studentId v1 ->
  is_primitive (VotePayload.studentId v1) = true ->
  option_exists p (VotePayload.optionId v1) ->
  step (vote (Some v2) cb2) (fst (step (vote (Some v1) cb1) s))
  = (fst (step (vote (Some v1) cb1) s), replied cb2 DuplicateVote)
  /\ (Set_has (Poll.submissions p) (VotePayload.studentId v1) = false ->
      acks (snd (step (vote (Some v1) cb1) s)) = respond cb1 Success
      /\ exists p1,
           currentPoll (fst (step (vote (Some v1) cb1) s)) = Some p1
           /\ sum_votes (Poll.options p1) = S (sum_votes (Poll.options p))
           /\ Poll.submissions p1
              = Poll.submissions p ++ [VotePayload.studentId v1])
  /\ (Set_has (Poll.submissions p) (VotePayload.studentId v1) = true ->
      step (vote (Some v1) cb1) s = (s, replied cb1 DuplicateVote)).
Proof.
  intros Hp Hact Hid1 Hid2 Hsame Hprim Hopt.
  destruct (find_index_some _ _ Hopt) as [i Hfind].
  destruct (Set_has (Poll.submissions p) (VotePayload.studentId v1)) eqn:Hhas.
  - (* the voter had voted already *)
    assert (Hfirst : step (vote (Some v1) cb1) s = (s, replied cb1 DuplicateVote)).
    { simpl. unfold on_vote. rewrite Hp, Hact, Hid1, Hhas. reflexivity. }
    rewrite Hfirst. simpl. split; [|split; [discriminate|reflexivity]].
    unfold on_vote. rewrite Hp, Hact, Hid2, Hsame, Hhas. reflexivity.
  - (* a new voter *)
    assert (Hfirst :
      step (vote (Some v1) cb1) s
      = (set_currentPoll
           (Some (count_vote i (VotePayload.studentId v1) p)) s,
         mkOutput (respond cb1 Success)
           [poll_update
              (computeResults (count_vote i (VotePayload.studentId v1) p))]
           (log_vote (VotePayload.studentName v1)
                     (text_at i (Poll.options p))))).
    { simpl. unfold on_vote. rewrite Hp, Hact, Hid1, Hhas. simpl.
      rewrite Hfind. reflexivity. }
    rewrite Hfirst. simpl. split; [|split; [|discriminate]].
    + unfold on_vote. simpl. rewrite Hact, Hid2, Hsame. simpl.
      rewrite (Set_has_add _ _ Hprim). reflexivity.
    + intros _. split; [reflexivity|].
      eexists. split; [reflexivity|]. simpl. split.
      * apply (sum_votes_update_at _ _ _ Hfind).
      * unfold Set_add. rewrite Hhas. reflexivity.
Qed.

Lemma primitive_voter_counted_once_witness :
  step (vote (Some (ballot "p1" "1" (JStr "s1"))) true) voted_once
  = (voted_once, replied true DuplicateVote)
  /\ acks (snd (step (vote (Some (ballot "p1" "0" (JStr "s1"))) true)
                     created))
     = [Success]
  /\ option_map (fun p => (sum_votes (Poll.options p), Poll.submissions p))
                (currentPoll voted_once)
     = Some (1, [JStr "s1"]).
Proof.
  destruct (primitive_voter_counted_once
              created
              (Poll.mk "p1" (JStr "Q")
                 [PollOption.mk "0" (JStr "A") 0;
                  PollOption.mk "1" (JStr "B") 0]
                 1000%Z 1%Z true [])
              (ballot "p1" "0" (JStr "s1")) (ballot "p1" "1" (JStr "s1"))
              true true eq_refl eq_refl eq_refl eq_refl eq_refl eq_refl
              (ex_intro _ (PollOption.mk "0" (JStr "A") 0)
                        (conj (or_introl eq_refl) eq_refl)))
    as (Hsecond & Hnew & _).
  destruct (Hnew eq_refl) as (Hack & _).
  split; [exact Hsecond|]. split; [exact Hack|]. reflexivity.
Defined.

(** The property as worded fails in two ways.  A voter who is already in
    the submissions set is refused on the first of the two calls, by the
    duplicate check itself.  And an object sent as voter identifier is never
    found in the submissions set: two votes carrying the identifier [{}] are
    both admitted and both counted. *)
Lemma repeated_vote_not_as_specified :
  (acks (snd (step (vote (Some (ballot "p1" "0" (JStr "s1"))) true)
                   voted_once))
   = [DuplicateVote]
   /\ ~ second_vote_is_duplicate voted_once
          (ballot "p1" "0" (JStr "s1")) (ballot "p1" "1" (JStr "s1")))
  /\ (VotePayload.studentId (ballot "p1" "1" (JObj []))
      = VotePayload.studentId (ballot "p1" "0" (JObj []))
      /\ acks (snd (step (vote (Some (ballot "p1" "1" (JObj []))) true)
                         (fst (step (vote (Some (ballot "p1" "0" (JObj [])))
                                          true)
                                    created))))
         = [Success]
      /\ option_map (fun p => map PollOption.votes (Poll.options p))
           (currentPoll
              (fst (step (vote (Some (ballot "p1" "1" (JObj []))) true)
                         (fst (step (vote (Some (ballot "p1" "0" (JObj [])))
                                          true)
                                    created)))))
         = Some [1; 1]
      /\ ~ second_vote_is_duplicate created
             (ballot "p1" "0" (JObj [])) (ballot "p1" "1" (JObj []))).
Proof.
  split.
  - split; [reflexivity|].
    intros (Hfirst & _). vm_compute in Hfirst. discriminate.
  - split; [reflexivity|]. split; [reflexivity|]. split; [reflexivity|].
    intros (_ & Hsecond & _). vm_compute in Hsecond. discriminate.
Qed.

(** ** The results aggregator *)

Lemma computeResults_total (p : Poll.t) :
  Results.total (computeResults p) = sum_votes (Poll.options p).
Proof. reflexivity. Qed.

Lemma computeResults_options (p : Poll.t) :
  map (fun r => (ResultOption.id r, ResultOption.text r, ResultOption.votes r))
      (Results.options (computeResults p))
  = map (fun o => (PollOption.id o, PollOption.text o, PollOption.votes o))
        (Poll.options p).
Proof.
  unfold computeResults. simpl. rewrite map_map. reflexivity.
Qed.

(** With no vote counted, every percentage is 0: the division is not
    evaluated. *)
Lemma computeResults_no_votes (p : Poll.t) :
  sum_votes (Poll.options p) = 0 ->
  Results.total (computeResults p) = 0
  /\ Forall (fun r => ResultOption.pct r = 0%Z)
            (Results.options (computeResults p)).
Proof.
  intro Hzero. split; [exact Hzero|].
  unfold computeResults. simpl. rewrite Hzero.
  apply Forall_forall. intros r Hr.
  apply in_map_iff in Hr. destruct Hr as (o & <- & _). reflexivity.
Qed.

Lemma computeResults_fresh payload uuid now p :
  createPoll payload uuid now = inr p ->
  Results.total (computeResults p) = 0
  /\ Forall (fun r => ResultOption.pct r = 0%Z)
            (Results.options (computeResults p)).
Proof.
  intro Hc. apply computeResults_no_votes.
  apply (createPoll_fresh _ _ _ _ Hc).
Qed.

(** Votes [3,1,0] give the percentages [75,25,0]. *)
Example percentages_3_1_0 :
  map (fun v => percentage v 4) [3; 1; 0] = [75%Z; 25%Z; 0%Z].
Proof. vm_compute. reflexivity. Qed.

(** Up to 200 votes in total, the code's percentage is the nearest integer
    whenever the exact percentage is not halfway between two integers. *)
Lemma percentage_nearest_off_ties (votes total : nat) :
  1 <= total <= 200 -> votes <= total -> is_tie votes total = false ->
  percentage votes total = nearest_percent votes total.
Proof.
  intros Htotal Hvotes Htie.
  assert (Hall : forallb agrees_off_ties (seq 1 200) = true)
    by (vm_compute; reflexivity).
  rewrite forallb_forall in Hall.
  specialize (Hall total). unfold agrees_off_ties in Hall.
  rewrite forallb_forall in Hall.
  assert (Hin : In total (seq 1 200)) by (apply in_seq; lia).
  specialize (Hall Hin votes).
  assert (Hinv : In votes (seq 0 (S total))) by (apply in_seq; lia).
  specialize (Hall Hinv). rewrite Htie in Hall. simpl in Hall.
  apply Z.eqb_eq. exact Hall.
Qed.

(** [Math.round] applied to a finite double [+/- m * 2^e]: an integral
    double is returned as it is, and otherwise the result [n] is the integer
    with [n - 1/2 <= x < n + 1/2], the nearest one, a tie going up. *)
Lemma Math_round_finite (x : float) (sign : bool) (m : positive) (e : Z) :
  Prim2SF x = S754_finite sign m e ->
  ((0 <= e)%Z ->
   Math_round x = ((if sign then Z.neg m else Z.pos m) * 2 ^ e)%Z)
  /\ ((e < 0)%Z ->
      (2 ^ (- e + 1) * Math_round x
       <= 2 * (if sign then Z.neg m else Z.pos m) + 2 ^ (- e)
       < 2 ^ (- e + 1) * (Math_round x + 1))%Z).
Proof.
  intro Hx. unfold Math_round. rewrite Hx. split; intro He.
  - apply Z.leb_le in He. rewrite He. reflexivity.
  - assert (Hneg : (0 <=? e)%Z = false) by (apply Z.leb_gt; exact He).
    rewrite Hneg.
    assert (Hpos : (0 < 2 ^ (- e + 1))%Z) by (apply Z.pow_pos_nonneg; lia).
    split.
    + apply Z.mul_div_le. exact Hpos.
    + apply (Z.mul_succ_div_gt
               (2 * (if sign then Z.neg m else Z.pos m) + 2 ^ (- e))
               (2 ^ (- e + 1)) Hpos).
Qed.

Lemma computeResults_entries (p : Poll.t) :
  Forall2 (entry_of (sum_votes (Poll.options p)))
          (Poll.options p) (Results.options (computeResults p)).
Proof.
  unfold computeResults. simpl.
  generalize (sum_votes (Poll.options p)). intro total.
  induction (Poll.options p) as [|o rest IH]; simpl; constructor.
  - repeat split.
  - exact IH.
Qed.

(** C5. The snapshot of a poll has as total the sum of the vote counters
    and lists the options in their order with their id, text and votes.
    The percentage of an option is [round(votes/total*100)] when the total
    is not 0, the quotient, the product and the rounding being those of the
    platform (double precision numbers and [Math.round]), and 0 when the
    total is 0: then nothing is divided.  In particular a poll that has just
    been created has total 0 and percentage 0 for every option. *)
Theorem computeResults_total_and_percentages (p : Poll.t) :
  Results.total (computeResults p) = sum_votes (Poll.options p)
  /\ Forall2 (entry_of (sum_votes (Poll.options p)))
             (Poll.options p) (Results.options (computeResults p))
  /\ (sum_votes (Poll.options p) = 0 ->
      Results.total (computeResults p) = 0
      /\ Forall (fun r => ResultOption.pct r = 0%Z)
                (Results.options (computeResults p)))
  /\ (forall payload uuid now,
        createPoll payload uuid now = inr p ->
        Results.total (computeResults p) = 0
        /\ Forall (fun r => ResultOption.pct r = 0%Z)
                  (Results.options (computeResults p))).
Proof.
  split; [reflexivity|]. split; [apply computeResults_entries|]. split.
  - apply computeResults_no_votes.
  - intros payload uuid now. apply computeResults_fresh.
Qed.

Lemma computeResults_total_and_percentages_witness :
  Results.total (computeResults poll_3_1_0) = 4
  /\ map ResultOption.pct (Results.options (computeResults poll_3_1_0))
     = [75%Z; 25%Z; 0%Z]
  /\ Forall (fun r => ResultOption.pct r = 0%Z)
            (Results.options
               (computeResults
                  (Poll.mk "p1" (JStr "Q")
                     [PollOption.mk "0" (JStr "A") 0;
                      PollOption.mk "1" (JStr "B") 0]
                     1000%Z 1%Z true []))).
Proof.
  destruct (computeResults_total_and_percentages poll_3_1_0)
    as (Htotal & Hentries & _).
  destruct (computeResults_total_and_percentages
              (Poll.mk "p1" (JStr "Q")
                 [PollOption.mk "0" (JStr "A") 0;
                  PollOption.mk "1" (JStr "B") 0]
                 1000%Z 1%Z true []))
    as (_ & _ & _ & Hfresh).
  split; [exact Htotal|]. split.
  - vm_compute. reflexivity.
  - apply (Hfresh (Some two_options) "p1" 1000%Z). reflexivity.
Defined.

(** At an exact tie the double can fall on either side.  With 23 votes out
    of 40 (a reachable state: a poll with two options and 40 distinct
    voters) the exact percentage is 57.5; [(23/40)*100] evaluates to
    57.499999999999993 and is rounded to 57, where rounding half up in exact
    arithmetic gives 58.  Another tie, 1 vote out of 8 (12.5), is rounded
    up to 13. *)
Example percentage_23_of_40 :
  reachable split_23_17
  /\ option_map computeResults (currentPoll split_23_17)
     = Some (Results.mk "p1" (JStr "Q")
               [ResultOption.mk "0" (JStr "A") 23 57%Z;
                ResultOption.mk "1" (JStr "B") 17 43%Z]
               40)
  /\ percentage 23 40 = 57%Z
  /\ is_tie 23 40 = true
  /\ nearest_percent 23 40 = 58%Z
  /\ percentage 1 8 = 13%Z
  /\ is_tie 1 8 = true.
Proof.
  split; [apply reachable_run, reachable_initial|].
  repeat split; vm_compute; reflexivity.
Qed.

(** ** The history of closed polls *)

#[local] Arguments firstn : simpl never.

Lemma remember_firstn (r : Results.t) (history : list Results.t) :
  List.length history <= 50 -> remember r history = firstn 50 (r :: history).
Proof.
  intro Hlen. unfold remember.
  destruct (Nat.ltb 50 (List.length (r :: history))) eqn:Hover.
  - apply Nat.ltb_lt in Hover. simpl in Hover.
    rewrite removelast_firstn_len.
    replace (Nat.pred (List.length (r :: history))) with 50
      by (simpl; lia).
    reflexivity.
  - apply Nat.ltb_ge in Hover. symmetry. apply firstn_all2. exact Hover.
Qed.


Lemma finishCurrentPoll_history (why : reason) (s : state) (p : Poll.t) :
  currentPoll s = Some p ->
  previousPolls (fst (finishCurrentPoll why s))
  = remember (computeResults (deactivate p)) (previousPolls s)
  /\ snd (finishCurrentPoll why s)
     = [poll_ended (computeResults (deactivate p)) why].
Proof.
  intro Hp. unfold finishCurrentPoll. rewrite Hp. simpl.
  rewrite previousPolls_clear_endTimer. split; reflexivity.
Qed.

Lemma finishCurrentPoll_idle (why : reason) (s : state) :
  currentPoll s = None -> finishCurrentPoll why s = (s, []).
Proof. intro Hp. unfold finishCurrentPoll. rewrite Hp. reflexivity. Qed.

(** What one event does to the history: nothing, with no poll reported
    closed; or it closes the poll in the slot, reports it, and puts its
    final snapshot in front. *)
Lemma step_history (e : event) (s : state) :
  (closed_in (snd (step e s)) = []
   /\ previousPolls (fst (step e s)) = previousPolls s)
  \/ (exists p,
        currentPoll s = Some p
        /\ closed_in (snd (step e s)) = [computeResults (deactivate p)]
        /\ previousPolls (fst (step e s))
           = remember (computeResults (deactivate p)) (previousPolls s)).
Proof.
  handler_cases e.
  - left. split; reflexivity.
  - left. unfold on_create_poll.
    destruct (poll_is_active s); [split; reflexivity|].
    destruct (createPoll payload uuid now) as [err|p]; [split; reflexivity|].
    simpl. autorewrite with clear_endTimer. split; reflexivity.
  - left. unfold on_vote. destruct payload as [v|]; [|split; reflexivity].
    destruct (currentPoll s) as [p|]; [|split; reflexivity].
    destruct (negb (Poll.active p) || negb (strict_eq_string _ _));
      [split; reflexivity|].
    destruct (Set_has _ _); [split; reflexivity|].
    destruct (find_index _ _); split; reflexivity.
  - unfold on_end_poll_now, poll_is_active.
    destruct (currentPoll s) as [p|] eqn:Hp; [|left; split; reflexivity].
    destruct (Poll.active p); simpl; [|left; split; reflexivity].
    right. exists p.
    destruct (finishCurrentPoll_history manual s p Hp) as [Hh Hev].
    destruct (finishCurrentPoll manual s) as [s' evs]. simpl in *.
    subst evs. repeat split. exact Hh.
  - left. unfold on_remove_student. destruct payload; split; reflexivity.
  - left. unfold on_get_current_poll.
    destruct (currentPoll s); split; reflexivity.
  - left. unfold on_disconnect. destruct (teacherSocketId s) as [t|];
      [destruct (String.eqb sid t)|]; split; reflexivity.
  - unfold on_timer.
    destruct (existsb _ (scheduled s)); [|left; split; reflexivity].
    match goal with
    | |- context [finishCurrentPoll timeout ?f] => set (fired := f)
    end.
    destruct (currentPoll s) as [p|] eqn:Hp.
    + right. exists p.
      destruct (finishCurrentPoll_history timeout fired p eq_refl) as [Hh Hev].
      destruct (finishCurrentPoll timeout fired) as [s' evs]. simpl in *.
      subst evs. repeat split. exact Hh.
    + left. rewrite (finishCurrentPoll_idle timeout fired eq_refl).
      split; reflexivity.
Qed.

Lemma history_bounded_step (e : event) (s : state) :
  List.length (previousPolls s) <= 50 ->
  List.length (previousPolls (fst (step e s))) <= 50.
Proof.
  intro Hlen.
  destruct (step_history e s) as [[_ ->]|(p & _ & _ & ->)]; [exact Hlen|].
  rewrite (remember_firstn _ _ Hlen). apply firstn_le_length.
Qed.

Lemma reachable_history_bounded (s : state) :
  reachable s -> List.length (previousPolls s) <= 50.
Proof.
  induction 1 as [|s e _ IH].
  - simpl. lia.
  - apply history_bounded_step, IH.
Qed.


(** Fifty-one create/close cycles: the poll created first is evicted and
    the other fifty are listed from the last closed to the second. *)
Example history_after_51_cycles :
  map Results.id
      (previousPolls (fst (run (flat_map cycle (seq 0 51)) initial)))
  = map (fun k => ("p" ++ toString k)%string) (rev (seq 1 50)).
Proof. vm_compute. reflexivity. Qed.



(** ** Querying the current poll *)

(** The remaining time is computed in double precision: after 999 ms of a
    poll of 2^45 seconds the difference [2^45 - 0.999] is rounded to
    [2^45 - 1], which is its own ceiling. *)
Example remainingSeconds_in_double_precision :
  reachable long_poll
  /\ remainingSeconds 999%Z long_poll = 35184372088831%float
  /\ remainingSeconds 1500%Z voted_once = 1%float
  /\ remainingSeconds 2100%Z voted_once = 0%float
  /\ remainingSeconds 1500%Z initial = 0%float.
Proof.
  split; [apply reachable_step, reachable_initial|].
  repeat split; vm_compute; reflexivity.
Qed.




(** ** Malformed payloads *)

Lemma createPoll_malformed payload uuid now :
  malformed_create payload -> createPoll payload uuid now = inl TypeError.
Proof.
  unfold createPoll, malformed_create.
  destruct payload as [pl|]; [|reflexivity].
  intro Hbad. destruct (CreatePayload.options pl); try reflexivity.
  exfalso. apply (Hbad items). reflexivity.
Qed.

(** C8, as the code has it. The handlers validate nothing.  A malformed
    [create-poll] never changes the state; while a poll is active it is
    answered with [PollInUse], and otherwise [createPoll] throws a
    [TypeError] out of the handler, with no acknowledgment and no
    broadcast.  A [vote] or [remove-student] whose payload is [null] or
    [undefined] throws a [TypeError] as well and changes nothing. *)
Theorem malformed_payload_throws (s : state) :
  (forall payload cb uuid now,
     malformed_create payload ->
     fst (step (create_poll payload cb uuid now) s) = s
     /\ (poll_is_active s = true ->
         snd (step (create_poll payload cb uuid now) s)
         = replied cb PollInUse)
     /\ (poll_is_active s = false ->
         snd (step (create_poll payload cb uuid now) s) = threw TypeError))
  /\ (forall cb, step (vote None cb) s = (s, threw TypeError))
  /\ (forall cb, step (remove_student None cb) s = (s, threw TypeError)).
Proof.
  split; [|split; reflexivity].
  intros payload cb uuid now Hbad. simpl. unfold on_create_poll.
  rewrite (createPoll_malformed payload uuid now Hbad).
  destruct (poll_is_active s); repeat split; discriminate.
Qed.

Lemma malformed_payload_throws_witness :
  fst (step (create_poll (Some (CreatePayload.mk (JStr "Q") (JStr "A,B") None))
                         true "p2" 2000%Z) voted_once)
  = voted_once
  /\ step (create_poll None true "p1" 1000%Z) initial
     = (initial, threw TypeError).
Proof.
  split.
  - apply (proj1 (malformed_payload_throws voted_once)).
    simpl. intros texts Habs. discriminate.
  - pose proof (proj1 (malformed_payload_throws initial)
                      None true "p1" 1000%Z I) as (Hsame & _ & Hthrow).
    rewrite (surjective_pairing (step _ initial)).
    rewrite Hsame, (Hthrow eq_refl). reflexivity.
Defined.

(** A [create-poll] without [options], sent to an idle server with a
    callback: the handler throws and the callback is never called. *)
Lemma create_without_options_throws :
  step (create_poll (Some (CreatePayload.mk (JStr "Q") JUndefined None))
                    true "p1" 1000%Z) initial
  = (initial, mkOutput [] [] (Threw TypeError))
  /\ ~ fails_closed
         (create_poll (Some (CreatePayload.mk (JStr "Q") JUndefined None))
                      true "p1" 1000%Z) initial.
Proof.
  split; [reflexivity|].
  intros (_ & Hreturned & _). vm_compute in Hreturned. discriminate.
Qed.

(** ** The teacher slot *)

Lemma teacherSocketId_finishCurrentPoll (why : reason) (s : state) :
  teacherSocketId (fst (finishCurrentPoll why s)) = teacherSocketId s.
Proof.
  unfold finishCurrentPoll. destruct (currentPoll s); simpl.
  - rewrite teacherSocketId_clear_endTimer. reflexivity.
  - reflexivity.
Qed.

Lemma step_keeps_registration (socketId : string) (e : event) (s : state) :
  keeps_registration socketId e ->
  teacherSocketId s = Some socketId ->
  teacherSocketId (fst (step e s)) = Some socketId.
Proof.
  intros Hkeep Hreg. handler_cases e; simpl in Hkeep.
  - contradiction.
  - unfold on_create_poll.
    destruct (poll_is_active s); [exact Hreg|].
    destruct (createPoll payload uuid now); [exact Hreg|].
    simpl. autorewrite with clear_endTimer. exact Hreg.
  - unfold on_vote. destruct payload as [v|]; [|exact Hreg].
    destruct (currentPoll s) as [p|]; [|exact Hreg].
    destruct (negb (Poll.active p) || negb (strict_eq_string _ _));
      [exact Hreg|].
    destruct (Set_has _ _); [exact Hreg|].
    destruct (find_index _ _); exact Hreg.
  - unfold on_end_poll_now. destruct (poll_is_active s); simpl; [|exact Hreg].
    close_with teacherSocketId_finishCurrentPoll.
    rewrite Hclose. exact Hreg.
  - unfold on_remove_student. destruct payload; exact Hreg.
  - unfold on_get_current_poll. destruct (currentPoll s); exact Hreg.
  - unfold on_disconnect. rewrite Hreg.
    destruct (String.eqb sid socketId) eqn:Heq; [|exact Hreg].
    apply String.eqb_eq in Heq. contradiction.
  - unfold on_timer. destruct (existsb _ (scheduled s)); [|exact Hreg].
    close_with teacherSocketId_finishCurrentPoll.
    rewrite Hclose. exact Hreg.
Qed.

Lemma run_keeps_registration (socketId : string) (es : list event)
    (s : state) :
  Forall (keeps_registration socketId) es ->
  teacherSocketId s = Some socketId ->
  teacherSocketId (fst (run es s)) = Some socketId.
Proof.
  intro Hall. revert s.
  induction Hall as [|e rest He _ IH]; intros s Hreg; simpl.
  - exact Hreg.
  - pose proof (step_keeps_registration socketId e s He Hreg) as H1.
    destruct (step e s) as [s1 o]. simpl in H1.
    specialize (IH s1 H1). destruct (run rest s1) as [s2 os]. exact IH.
Qed.

(** C9. The teacher slot holds at most one identifier (it is an optional
    value).  Registering overwrites it with the registering connection,
    whatever it held.  A disconnection clears it when it holds the
    disconnecting connection and otherwise leaves it as it is.  Hence after
    a connection has registered, whatever happened before, the slot holds it
    for as long as no other registration and no disconnection of that very
    connection occurs: disconnections of older connections do not clear
    it. *)
Theorem teacher_slot_last_registrant_wins :
  (forall s socketId,
     teacherSocketId (fst (step (register_teacher socketId) s))
     = Some socketId)
  /\ (forall s socketId,
        teacherSocketId s = Some socketId ->
        teacherSocketId (fst (step (disconnect socketId) s)) = None)
  /\ (forall s socketId,
        teacherSocketId s <> Some socketId ->
        teacherSocketId (fst (step (disconnect socketId) s))
        = teacherSocketId s)
  /\ (forall s newer es,
        Forall (keeps_registration newer) es ->
        teacherSocketId (fst (run (register_teacher newer :: es) s))
        = Some newer).
Proof.
  repeat split.
  - intros s sid Hreg. simpl. unfold on_disconnect. rewrite Hreg.
    rewrite String.eqb_refl. reflexivity.
  - intros s sid Hother. simpl. unfold on_disconnect.
    destruct (teacherSocketId s) as [t|] eqn:Ht; [|simpl; exact Ht].
    destruct (String.eqb sid t) eqn:Heq; [|simpl; exact Ht].
    apply String.eqb_eq in Heq. subst t. contradiction.
  - intros s newer es Hall. simpl.
    pose proof (run_keeps_registration newer es
                  (set_teacherSocketId (Some newer) s) Hall eq_refl) as Hrun.
    destruct (run es (set_teacherSocketId (Some newer) s)) as [s2 os].
    exact Hrun.
Qed.

Lemma teacher_slot_last_registrant_wins_witness :
  teacherSocketId
    (fst (step (disconnect "old")
               (fst (step (register_teacher "old") initial)))) = None
  /\ teacherSocketId
       (fst (run [register_teacher "old"; register_teacher "new";
                  disconnect "old"; get_current_poll true 0%Z]
                 initial)) = Some "new".
Proof.
  split.
  - apply (proj1 (proj2 teacher_slot_last_registrant_wins)). reflexivity.
  - change (teacherSocketId
              (fst (run [register_teacher "new"; disconnect "old";
                         get_current_poll true 0%Z]
                        (fst (step (register_teacher "old") initial))))
            = Some "new").
    apply (proj2 (proj2 (proj2 teacher_slot_last_registrant_wins))).
    repeat constructor. simpl. discriminate.
Defined.

(** ** No inactive poll is ever observable *)

(** C10. In every reachable state a poll held in the slot is active: the
    close routine, which is the only code that clears the [active] flag,
    empties the slot in the same call, so that the slot is empty after a
    manual close of the poll and after the expiry of a scheduled timeout.
    No event leaves an inactive poll in the slot, and [get-current-poll]
    never answers with [active = false]. *)
Theorem slot_never_holds_inactive_poll (s : state) :
  reachable s ->
  (forall p, currentPoll s = Some p -> Poll.active p = true)
  /\ (forall why, currentPoll (fst (finishCurrentPoll why s)) = None)
  /\ (forall cb p, currentPoll s = Some p ->
                   currentPoll (fst (step (end_poll_now cb) s)) = None)
  /\ (forall h, In h (map fst (scheduled s)) ->
                currentPoll (fst (step (timer_fires h) s)) = None)
  /\ (forall e p, currentPoll (fst (step e s)) = Some p ->
                  Poll.active p = true)
  /\ (forall cb now r a remaining,
        In (Current r a remaining)
           (acks (snd (step (get_current_poll cb now) s))) ->
        a = true).
Proof.
  intro Hs. pose proof (reachable_slot_active s Hs) as Hact.
  split; [exact Hact|]. split; [|split; [|split; [|split]]].
  - intro why. apply finishCurrentPoll_discards.
  - intros cb p Hp. simpl. unfold on_end_poll_now, poll_is_active.
    rewrite Hp, (Hact p Hp). simpl.
    close_with finishCurrentPoll_discards. exact Hclose.
  - intros h Hin. simpl. unfold on_timer.
    replace (existsb (fun t => Nat.eqb (fst t) h) (scheduled s)) with true.
    + close_with finishCurrentPoll_discards. exact Hclose.
    + symmetry. apply existsb_exists.
      apply in_map_iff in Hin. destruct Hin as (t & Ht & Hin).
      exists t. split; [exact Hin|]. apply Nat.eqb_eq. exact Ht.
  - intros e. apply slot_active_step. exact Hact.
  - intros cb now r a remaining. simpl. unfold on_get_current_poll.
    destruct (currentPoll s) as [p|] eqn:Hp; destruct cb; simpl;
      intro Hin; try contradiction;
      destruct Hin as [Heq|Hin]; try contradiction; try discriminate.
    injection Heq as _ <- _. apply Hact. exact Hp.
Qed.

Lemma slot_never_holds_inactive_poll_witness :
  Poll.active poll_voted_once = true
  /\ currentPoll (fst (finishCurrentPoll timeout voted_once)) = None
  /\ currentPoll (fst (step (end_poll_now true) voted_once)) = None
  /\ currentPoll (fst (step (timer_fires 0) voted_once)) = None.
Proof.
  pose proof (slot_never_holds_inactive_poll voted_once reachable_voted_once)
    as (Hact & Hclose & Hmanual & Htimer & _).
  split; [apply Hact; reflexivity|]. split; [apply Hclose|].
  split; [apply (Hmanual true poll_voted_once); reflexivity|].
  apply Htimer. simpl. left. reflexivity.
Defined.

(** * Further properties of the handlers *)

(** ** Option ids *)

Lemma toString_inj (a b : nat) : toString a = toString b -> a = b.
Proof.
  unfold toString. intro H.
  apply DecimalNat.Unsigned.to_uint_inj.
  assert (Hs : Some (Nat.to_uint a) = Some (Nat.to_uint b)).
  { rewrite <- (NilEmpty.usu (Nat.to_uint a)), <- (NilEmpty.usu (Nat.to_uint b)).
    rewrite H. reflexivity. }
  injection Hs as Hs. exact Hs.
Qed.

Lemma map_from_new_option_ids (texts : list jsval) (k : nat) :
  map PollOption.id (map_from new_option k texts)
  = map toString (seq k (List.length texts)).
Proof.
  revert k. induction texts as [|t rest IH]; intro k; simpl.
  - reflexivity.
  - rewrite IH. reflexivity.
Qed.

Lemma map_from_length {A B : Type} (f : A -> nat -> B) (k : nat)
    (xs : list A) :
  List.length (map_from f k xs) = List.length xs.
Proof.
  revert k. induction xs as [|x rest IH]; intro k; simpl;
    [reflexivity | rewrite IH; reflexivity].
Qed.

Lemma map_from_nth_error (texts : list jsval) (k j : nat) :
  nth_error (map_from new_option k texts) j
  = option_map (fun t => PollOption.mk (toString (k + j)) t 0)
               (nth_error texts j).
Proof.
  revert k j. induction texts as [|t rest IH]; intros k j.
  - destruct j; reflexivity.
  - destruct j as [|j]; simpl.
    + rewrite Nat.add_0_r. reflexivity.
    + rewrite IH. rewrite Nat.add_succ_r. reflexivity.
Qed.

Lemma NoDup_toString_seq (k n : nat) : NoDup (map toString (seq k n)).
Proof.
  apply Injective_map_NoDup.
  - intros a b. apply toString_inj.
  - apply seq_NoDup.
Qed.

Lemma createPoll_array pl texts uuid now :
  CreatePayload.options pl = JArr texts ->
  createPoll (Some pl) uuid now
  = inr (Poll.mk uuid (CreatePayload.question pl) (mapi new_option texts) now
                 (duration_or_default (CreatePayload.duration pl)) true []).
Proof. intro Hopt. unfold createPoll. rewrite Hopt. reflexivity. Qed.

Lemma createPoll_inv payload uuid now p :
  createPoll payload uuid now = inr p ->
  exists pl texts,
    payload = Some pl /\ CreatePayload.options pl = JArr texts
    /\ p = Poll.mk uuid (CreatePayload.question pl) (mapi new_option texts)
                   now (duration_or_default (CreatePayload.duration pl))
                   true [].
Proof.
  unfold createPoll. destruct payload as [pl|]; [|discriminate].
  destruct (CreatePayload.options pl) as [| | | | |texts|] eqn:Hopt;
    try discriminate.
  intro H. injection H as <-. exists pl, texts. repeat split. exact Hopt.
Qed.

Lemma duration_or_default_nonzero (d : option Z) :
  duration_or_default d <> 0%Z.
Proof.
  unfold duration_or_default. destruct d as [n|]; [|discriminate].
  destruct (n =? 0)%Z eqn:Hn; [discriminate|].
  apply Z.eqb_neq. exact Hn.
Qed.

(** X1. [createPoll] on a payload whose [options] is an array of [n]
    texts (possibly none) builds a poll with [n] options in the order of
    the texts: option [k] has the id [k.toString()], the [k]-th text and no
    vote, so the ids are pairwise distinct.  The duration is never 0: it is
    60 when the payload has no duration or the duration 0, and the given
    duration (negative ones included) otherwise. *)
Theorem createPoll_options_by_position
    (pl : CreatePayload.t) (texts : list jsval) (uuid : string) (now : Z) :
  CreatePayload.options pl = JArr texts ->
  exists p,
    createPoll (Some pl) uuid now = inr p
    /\ List.length (Poll.options p) = List.length texts
    /\ (forall k t, nth_error texts k = Some t ->
          nth_error (Poll.options p) k = Some (PollOption.mk (toString k) t 0))
    /\ NoDup (map PollOption.id (Poll.options p))
    /\ Poll.duration p <> 0%Z
    /\ (CreatePayload.duration pl = None
        \/ CreatePayload.duration pl = Some 0%Z -> Poll.duration p = 60%Z)
    /\ (forall d, CreatePayload.duration pl = Some d -> d <> 0%Z ->
                  Poll.duration p = d).
Proof.
  intro Hopt. eexists. split; [apply (createPoll_array _ _ _ _ Hopt)|].
  simpl. unfold mapi. repeat split.
  - apply map_from_length.
  - intros k t Hk. rewrite map_from_nth_error, Hk. reflexivity.
  - rewrite map_from_new_option_ids. apply NoDup_toString_seq.
  - apply duration_or_default_nonzero.
  - intros [-> | ->]; reflexivity.
  - intros d -> Hd. simpl. apply Z.eqb_neq in Hd. rewrite Hd. reflexivity.
Qed.

Lemma createPoll_options_by_position_witness :
  exists p,
    createPoll (Some two_options) "p1" 1000%Z = inr p
    /\ Poll.options p
       = [PollOption.mk "0" (JStr "A") 0; PollOption.mk "1" (JStr "B") 0]
    /\ Poll.duration p = 1%Z.
Proof.
  destruct (createPoll_options_by_position
              two_options [JStr "A"; JStr "B"] "p1" 1000%Z eq_refl)
    as (p & Hp & _).
  exists p. split; [exact Hp|].
  vm_compute in Hp. injection Hp as <-. split; reflexivity.
Defined.

(** ** Which option a vote is counted for *)

Lemma createPoll_well_indexed payload uuid now p :
  createPoll payload uuid now = inr p -> well_indexed p.
Proof.
  intro Hc. destruct (createPoll_inv _ _ _ _ Hc) as (pl & texts & _ & _ & ->).
  unfold well_indexed, mapi. simpl.
  rewrite map_from_new_option_ids, map_from_length. reflexivity.
Qed.

Lemma update_at_length {A : Type} (i : nat) (f : A -> A) (xs : list A) :
  List.length (update_at i f xs) = List.length xs.
Proof.
  revert i. induction xs as [|x rest IH]; intro i; [destruct i; reflexivity|].
  destruct i; simpl; [reflexivity | rewrite IH; reflexivity].
Qed.

Lemma update_at_map {A B : Type} (g : A -> B) (i : nat) (f : A -> A)
    (xs : list A) :
  (forall x, g (f x) = g x) -> map g (update_at i f xs) = map g xs.
Proof.
  intro Hf. revert i. induction xs as [|x rest IH]; intro i;
    [destruct i; reflexivity|].
  destruct i; simpl; [rewrite Hf | rewrite IH]; reflexivity.
Qed.

Lemma update_at_nth_error {A : Type} (i j : nat) (f : A -> A) (xs : list A) :
  nth_error (update_at i f xs) j
  = if Nat.eqb j i then option_map f (nth_error xs j) else nth_error xs j.
Proof.
  revert i j. induction xs as [|x rest IH]; intros i j.
  - destruct i, j; simpl; try reflexivity; destruct (Nat.eqb j i); reflexivity.
  - destruct i, j; simpl; try reflexivity. apply IH.
Qed.

Lemma count_vote_well_indexed (i : nat) (studentId : jsval) (p : Poll.t) :
  well_indexed p -> well_indexed (count_vote i studentId p).
Proof.
  unfold well_indexed. simpl. intro Hp.
  rewrite update_at_length, update_at_map by reflexivity. exact Hp.
Qed.

Lemma well_indexed_step (e : event) (s : state) :
  (forall p, currentPoll s = Some p -> well_indexed p) ->
  forall p, currentPoll (fst (step e s)) = Some p -> well_indexed p.
Proof.
  intros Hs p Hp.
  pose proof (step_slot_change e s) as Hch. rewrite Hp in Hch.
  inversion Hch; subst.
  - apply Hs. assumption.
  - eapply createPoll_well_indexed. eassumption.
  - apply count_vote_well_indexed. apply Hs. assumption.
Qed.

Lemma reachable_well_indexed (s : state) :
  reachable s -> forall p, currentPoll s = Some p -> well_indexed p.
Proof.
  induction 1 as [|s e _ IH].
  - intros p Hp. discriminate.
  - apply well_indexed_step, IH.
Qed.

Lemma strict_eq_string_true (x : string) (v : jsval) :
  strict_eq_string x v = true <-> v = JStr x.
Proof.
  destruct v; simpl; split; try discriminate.
  - intro H. apply String.eqb_eq in H. subst. reflexivity.
  - intro H. injection H as ->. apply String.eqb_refl.
Qed.

Lemma find_index_by_position (opts : list PollOption.t) (k j : nat) :
  map PollOption.id opts = map toString (seq k (List.length opts)) ->
  j < List.length opts ->
  find_index (fun o => strict_eq_string (PollOption.id o)
                                        (JStr (toString (k + j))))
             opts = Some j.
Proof.
  revert k j. induction opts as [|o rest IH]; intros k j Hids Hj; simpl in *.
  - lia.
  - injection Hids as Hid Hrest. rewrite Hid.
    destruct j as [|j].
    + rewrite Nat.add_0_r, String.eqb_refl. reflexivity.
    + destruct (String.eqb (toString k) (toString (k + S j))) eqn:Heq.
      * apply String.eqb_eq, toString_inj in Heq. lia.
      * rewrite <- Nat.add_succ_comm.
        rewrite (IH (S k) j Hrest) by lia. reflexivity.
Qed.

(** X2. In every reachable state the options of the poll in the slot carry
    their positions as ids, so an [optionId] identifies an option exactly
    when it is the string [k.toString()] for a position [k] below the number
    of options.  In particular a number is never a valid [optionId], and a
    poll created with an empty list of options has no valid [optionId]. *)
Theorem valid_option_ids (s : state) (p : Poll.t) :
  reachable s ->
  currentPoll s = Some p ->
  (forall optionId,
     option_exists p optionId
     <-> exists k, k < List.length (Poll.options p)
                   /\ optionId = JStr (toString k))
  /\ (forall n, no_such_option p (JNum n))
  /\ (Poll.options p = [] -> forall optionId, no_such_option p optionId).
Proof.
  intros Hs Hp. pose proof (reachable_well_indexed s Hs p Hp) as Hidx.
  unfold well_indexed in Hidx. split; [|split].
  - intro optionId. split.
    + intros (o & Hin & Ho). apply strict_eq_string_true in Ho. subst optionId.
      assert (Hid : In (PollOption.id o) (map PollOption.id (Poll.options p)))
        by (apply in_map; exact Hin).
      rewrite Hidx in Hid. apply in_map_iff in Hid.
      destruct Hid as (k & Hk & Hseq). apply in_seq in Hseq.
      exists k. split; [lia|]. rewrite Hk. reflexivity.
    + intros (k & Hk & ->).
      (* the option at position k is the witness *)
      destruct (nth_error (Poll.options p) k) as [ok|] eqn:Hnth.
      * exists ok. split; [eapply nth_error_In; exact Hnth|].
        apply strict_eq_string_true. f_equal.
        assert (Hmap : nth_error (map PollOption.id (Poll.options p)) k
                       = Some (PollOption.id ok))
          by (rewrite nth_error_map, Hnth; reflexivity).
        rewrite Hidx, nth_error_map in Hmap.
        rewrite nth_error_nth' with (d := 0) in Hmap
          by (rewrite length_seq; exact Hk).
        rewrite seq_nth in Hmap by exact Hk. simpl in Hmap.
        injection Hmap as Hmap. exact Hmap.
      * apply nth_error_None in Hnth. lia.
  - intros n o _. reflexivity.
  - intros Hempty optionId o Hin. rewrite Hempty in Hin. destruct Hin.
Qed.

Lemma valid_option_ids_witness :
  option_exists poll_voted_once (JStr "1")
  /\ no_such_option poll_voted_once (JNum 1).
Proof.
  destruct (valid_option_ids voted_once poll_voted_once
              reachable_voted_once eq_refl) as (Hvalid & Hnum & _).
  split; [|apply Hnum].
  apply Hvalid. exists 1. split; [simpl; lia | reflexivity].
Defined.

(** X3. In a reachable state, a vote that carries the poll's id, a voter
    not yet in the submissions set and the option id [k.toString()] of an
    existing position [k] is admitted: the counter of option [k] grows by
    one, every other option and the order of the options stay as they were,
    the voter is appended to the submissions, the callback receives
    [{success: true}], and the snapshot broadcast with [poll-update] is that
    of the updated poll, its total one more than before. *)
Theorem vote_counted_for_its_option
    (s : state) (p : Poll.t) (v : VotePayload.t) (cb : bool) (k : nat) :
  reachable s ->
  currentPoll s = Some p ->
  strict_eq_string (Poll.id p) (VotePayload.pollId v) = true ->
  Set_has (Poll.submissions p) (VotePayload.studentId v) = false ->
  k < List.length (Poll.options p) ->
  VotePayload.optionId v = JStr (toString k) ->
  exists p',
    fst (step (vote (Some v) cb) s) = set_currentPoll (Some p') s
    /\ acks (snd (step (vote (Some v) cb) s)) = respond cb Success
    /\ emitted (snd (step (vote (Some v) cb) s))
       = [poll_update (computeResults p')]
    /\ Results.total (computeResults p') = S (sum_votes (Poll.options p))
    /\ (forall j,
          nth_error (Poll.options p') j
          = if Nat.eqb j k
            then option_map one_more_vote (nth_error (Poll.options p) j)
            else nth_error (Poll.options p) j)
    /\ Poll.submissions p' = Poll.submissions p ++ [VotePayload.studentId v]
    /\ (Poll.id p', Poll.question p', Poll.startedAt p', Poll.duration p',
        Poll.active p')
       = (Poll.id p, Poll.question p, Poll.startedAt p, Poll.duration p,
          Poll.active p).
Proof.
  intros Hs Hp Hid Hnew Hk Hopt.
  pose proof (reachable_slot_active s Hs p Hp) as Hact.
  pose proof (find_index_by_position (Poll.options p) 0 k
                (reachable_well_indexed s Hs p Hp) Hk) as Hfind.
  simpl in Hfind.
  exists (count_vote k (VotePayload.studentId v) p).
  assert (Hstep :
    step (vote (Some v) cb) s
    = (set_currentPoll (Some (count_vote k (VotePayload.studentId v) p)) s,
       mkOutput (respond cb Success)
         [poll_update
            (computeResults (count_vote k (VotePayload.studentId v) p))]
         (log_vote (VotePayload.studentName v)
                   (text_at k (Poll.options p))))).
  { simpl. unfold on_vote. rewrite Hp, Hact, Hid, Hnew, Hopt. simpl.
    rewrite Hfind. reflexivity. }
  rewrite Hstep. simpl. repeat split.
  - apply (sum_votes_update_at _ _ _ Hfind).
  - intro j. apply update_at_nth_error.
  - unfold Set_add. rewrite Hnew. reflexivity.
Qed.

Lemma vote_counted_for_its_option_witness :
  exists p',
    currentPoll (fst (step (vote (Some (ballot "p1" "1" (JStr "s2"))) true)
                           voted_once)) = Some p'
    /\ map PollOption.votes (Poll.options p') = [1; 1]
    /\ Poll.submissions p' = [JStr "s1"; JStr "s2"].
Proof.
  destruct (vote_counted_for_its_option
              voted_once poll_voted_once (ballot "p1" "1" (JStr "s2")) true 1
              reachable_voted_once eq_refl eq_refl eq_refl
              (Nat.lt_succ_diag_r 1) eq_refl)
    as (p' & Hstate & _ & _ & _ & _ & _ & _).
  exists p'. rewrite Hstate. split; [reflexivity|].
  vm_compute in Hstate. injection Hstate as <-. split; reflexivity.
Defined.

(** ** The timeout of a poll *)

Lemma clearTimeout_same (h : nat) (timers : list (nat * Z)) :
  (forall t, In t timers -> fst t = h) -> clearTimeout h timers = [].
Proof.
  intro Hall. unfold clearTimeout.
  induction timers as [|t rest IH]; simpl; [reflexivity|].
  rewrite (Hall t (or_introl eq_refl)), Nat.eqb_refl. simpl.
  apply IH. intros t' Ht'. apply Hall. right. exact Ht'.
Qed.

Lemma clearTimeout_other (h h' : nat) (d : Z) :
  h' <> h -> existsb (fun t => Nat.eqb (fst t) h') [(h, d)] = false.
Proof.
  intro Hneq. simpl. rewrite orb_false_r. apply Nat.eqb_neq.
  intro Heq. apply Hneq. symmetry. exact Heq.
Qed.

(** The close routine on a poll whose timeout is the only one that may
    still be scheduled. *)
Lemma finishCurrentPoll_closes (why : reason) (s : state) (p : Poll.t)
    (h : nat) :
  currentPoll s = Some p ->
  endTimer s = Some h ->
  (forall t, In t (scheduled s) -> fst t = h) ->
  finishCurrentPoll why s
  = (mkState None
             (remember (computeResults (deactivate p)) (previousPolls s))
             None (teacherSocketId s) [] (nextHandle s),
     [poll_ended (computeResults (deactivate p)) why]).
Proof.
  intros Hp Ht Hall. unfold finishCurrentPoll, clear_endTimer.
  rewrite Hp. simpl. rewrite Ht. simpl.
  rewrite (clearTimeout_same h (scheduled s) Hall). reflexivity.
Qed.

Lemma timer_matches_slot_empty (s : state) :
  timer_matches_slot s -> currentPoll s = None ->
  endTimer s = None /\ scheduled s = [].
Proof. unfold timer_matches_slot. intros H Hp. rewrite Hp in H. exact H. Qed.

Lemma timer_matches_slot_poll (s : state) (p : Poll.t) :
  timer_matches_slot s -> currentPoll s = Some p ->
  exists h, endTimer s = Some h
            /\ scheduled s = [(h, (Poll.duration p * 1000)%Z)].
Proof. unfold timer_matches_slot. intros H Hp. rewrite Hp in H. exact H. Qed.

Lemma finishCurrentPoll_timer_matches (why : reason) (s : state) :
  (forall p, currentPoll s = Some p ->
     exists h, endTimer s = Some h
               /\ (forall t, In t (scheduled s) -> fst t = h)) ->
  (currentPoll s = None -> endTimer s = None /\ scheduled s = []) ->
  timer_matches_slot (fst (finishCurrentPoll why s)).
Proof.
  intros Hsome Hnone.
  destruct (currentPoll s) as [p|] eqn:Hp.
  - destruct (Hsome p eq_refl) as (h & Ht & Hall).
    rewrite (finishCurrentPoll_closes why s p h Hp Ht Hall).
    unfold timer_matches_slot. simpl. split; reflexivity.
  - rewrite (finishCurrentPoll_idle why s Hp). simpl.
    unfold timer_matches_slot. rewrite Hp. apply Hnone. reflexivity.
Qed.

Lemma timer_matches_slot_step (e : event) (s : state) :
  timer_matches_slot s -> timer_matches_slot (fst (step e s)).
Proof.
  intro Hinv. handler_cases e.
  - exact Hinv.
  - unfold on_create_poll.
    destruct (poll_is_active s); [exact Hinv|].
    destruct (createPoll payload uuid now) as [err|p]; [exact Hinv|].
    simpl. unfold timer_matches_slot, arm_endTimer, clear_endTimer. simpl.
    destruct (currentPoll s) as [p0|] eqn:Hp0.
    + destruct (timer_matches_slot_poll s p0 Hinv Hp0) as (h & Ht & Hsch).
      rewrite Ht. simpl. rewrite Hsch. simpl. rewrite Nat.eqb_refl. simpl.
      eexists. split; reflexivity.
    + destruct (timer_matches_slot_empty s Hinv Hp0) as (Ht & Hsch).
      rewrite Ht. simpl. rewrite Hsch. eexists. split; reflexivity.
  - unfold on_vote. destruct payload as [v|]; [|exact Hinv].
    destruct (currentPoll s) as [p|] eqn:Hp; [|exact Hinv].
    destruct (negb (Poll.active p) || negb (strict_eq_string _ _));
      [exact Hinv|].
    destruct (Set_has _ _); [exact Hinv|].
    destruct (find_index _ _); [|exact Hinv].
    simpl. destruct (timer_matches_slot_poll s p Hinv Hp) as (h & Ht & Hsch).
    unfold timer_matches_slot. simpl. exists h. split; assumption.
  - unfold on_end_poll_now. destruct (poll_is_active s); simpl; [|exact Hinv].
    assert (Hafter : timer_matches_slot (fst (finishCurrentPoll manual s))).
    { apply finishCurrentPoll_timer_matches.
      - intros p Hp.
        destruct (timer_matches_slot_poll s p Hinv Hp) as (h & Ht & Hsch).
        exists h. split; [exact Ht|]. rewrite Hsch.
        intros t [<-|[]]. reflexivity.
      - apply timer_matches_slot_empty. exact Hinv. }
    destruct (finishCurrentPoll manual s) as [s' evs]. exact Hafter.
  - unfold on_remove_student. destruct payload; exact Hinv.
  - unfold on_get_current_poll. destruct (currentPoll s); exact Hinv.
  - unfold on_disconnect. destruct (teacherSocketId s) as [t|]; [|exact Hinv].
    destruct (String.eqb sid t); exact Hinv.
  - unfold on_timer.
    destruct (existsb _ (scheduled s)) eqn:Hex; [|exact Hinv].
    match goal with
    | |- context [finishCurrentPoll timeout ?f] => set (fired := f)
    end.
    assert (Hafter : timer_matches_slot (fst (finishCurrentPoll timeout fired))).
    { apply finishCurrentPoll_timer_matches; subst fired; simpl.
      - intros p Hp.
        destruct (timer_matches_slot_poll s p Hinv Hp) as (h0 & Ht & Hsch).
        exists h0. split; [exact Ht|]. rewrite Hsch.
        intros t Hin. unfold clearTimeout in Hin.
        apply filter_In in Hin. destruct Hin as [[<-|[]] _]. reflexivity.
      - intro Hp. destruct (timer_matches_slot_empty s Hinv Hp) as (Ht & Hsch).
        rewrite Hsch in Hex. discriminate. }
    destruct (finishCurrentPoll timeout fired) as [s' evs]. exact Hafter.
Qed.

Lemma reachable_timer_matches_slot (s : state) :
  reachable s -> timer_matches_slot s.
Proof.
  induction 1 as [|s e _ IH].
  - unfold timer_matches_slot. simpl. split; reflexivity.
  - apply timer_matches_slot_step, IH.
Qed.

(** X4. In every reachable state exactly one timeout is scheduled while a
    poll is in the slot: the one whose handle [endTimer] holds, with the
    poll's duration times 1000 as delay in milliseconds.  While the slot is
    empty no timeout is scheduled and [endTimer] is [null].  Every event
    keeps this correspondence. *)
Theorem one_timeout_per_poll :
  (forall s, reachable s ->
     (currentPoll s = None -> endTimer s = None /\ scheduled s = [])
     /\ (forall p, currentPoll s = Some p ->
           exists h, endTimer s = Some h
                     /\ scheduled s = [(h, (Poll.duration p * 1000)%Z)]))
  /\ (forall s e, timer_matches_slot s -> timer_matches_slot (fst (step e s))).
Proof.
  split.
  - intros s Hs. pose proof (reachable_timer_matches_slot s Hs) as Hinv.
    split.
    + apply timer_matches_slot_empty. exact Hinv.
    + intro p. apply timer_matches_slot_poll. exact Hinv.
  - intros s e. apply timer_matches_slot_step.
Qed.

Lemma one_timeout_per_poll_witness :
  exists h, endTimer voted_once = Some h
            /\ scheduled voted_once = [(h, 1000%Z)].
Proof.
  apply (proj2 (proj1 one_timeout_per_poll voted_once reachable_voted_once)
               poll_voted_once).
  reflexivity.
Defined.

Lemma timer_fires_idle (h : nat) (s : state) :
  timer_matches_slot s -> currentPoll s = None ->
  step (timer_fires h) s = (s, silent).
Proof.
  intros Hinv Hp. simpl. unfold on_timer.
  destruct (timer_matches_slot_empty s Hinv Hp) as (_ & ->). reflexivity.
Qed.

Lemma reachable_closed_by_end_poll_now (cb : bool) (s : state) :
  reachable s -> currentPoll (fst (step (end_poll_now cb) s)) = None.
Proof.
  intro Hs. simpl. unfold on_end_poll_now, poll_is_active.
  destruct (currentPoll s) as [p|] eqn:Hp; simpl; [|exact Hp].
  rewrite (reachable_slot_active s Hs p Hp). simpl.
  close_with finishCurrentPoll_discards. exact Hclose.
Qed.

Lemma vote_idle (v : option VotePayload.t) (cb : bool) (s : state) :
  currentPoll s = None ->
  step (vote v cb) s
  = (s, match v with
        | Some _ => replied cb NoActivePoll
        | None => threw TypeError
        end).
Proof.
  intro Hp. simpl. unfold on_vote. destruct v; [rewrite Hp|]; reflexivity.
Qed.

Lemma end_poll_now_idle (cb : bool) (s : state) :
  currentPoll s = None ->
  step (end_poll_now cb) s = (s, replied cb NoActivePoll).
Proof.
  intro Hp. simpl. unfold on_end_poll_now, poll_is_active. rewrite Hp.
  reflexivity.
Qed.

(** X5. In a reachable state with a poll in the slot, the expiry of the
    timeout in [endTimer] closes that poll: the slot and [endTimer] are
    emptied, nothing stays scheduled, the final snapshot goes in front of the
    history (cut to 50 entries), [poll-ended] is broadcast with that
    snapshot and the reason [timeout], and no callback is involved.  No
    other timeout can fire: with any other handle, and with any handle while
    the slot is empty, nothing happens.  In particular after [end-poll-now]
    the timeout of the closed poll never fires. *)
Theorem timeout_closes_its_poll (s : state) :
  reachable s ->
  (currentPoll s = None -> forall h, step (timer_fires h) s = (s, silent))
  /\ (forall p h,
        currentPoll s = Some p -> endTimer s = Some h ->
        step (timer_fires h) s
        = (mkState None
                   (firstn 50 (computeResults (deactivate p) :: previousPolls s))
                   None (teacherSocketId s) [] (nextHandle s),
           mkOutput [] [poll_ended (computeResults (deactivate p)) timeout]
                    Returned)
        /\ forall h', h' <> h -> step (timer_fires h') s = (s, silent))
  /\ (forall cb h,
        step (timer_fires h) (fst (step (end_poll_now cb) s))
        = (fst (step (end_poll_now cb) s), silent)).
Proof.
  intro Hs. pose proof (reachable_timer_matches_slot s Hs) as Hinv.
  split; [|split].
  - intros Hp h. apply timer_fires_idle; assumption.
  - intros p h Hp Ht.
    destruct (timer_matches_slot_poll s p Hinv Hp) as (h0 & Ht0 & Hsch).
    rewrite Ht in Ht0. injection Ht0 as <-. split.
    + simpl. unfold on_timer.
      replace (existsb (fun t => Nat.eqb (fst t) h) (scheduled s)) with true
        by (rewrite Hsch; simpl; rewrite Nat.eqb_refl; reflexivity).
      match goal with
      | |- context [finishCurrentPoll timeout ?f] =>
          rewrite (finishCurrentPoll_closes timeout f p h Hp Ht)
      end.
      * simpl.
        rewrite (remember_firstn _ _ (reachable_history_bounded s Hs)).
        reflexivity.
      * simpl. intros t Hin. unfold clearTimeout in Hin.
        apply filter_In in Hin. rewrite Hsch in Hin.
        destruct Hin as [[<-|[]] _]. reflexivity.
    + intros h' Hneq. simpl. unfold on_timer. rewrite Hsch.
      rewrite (clearTimeout_other h h' _ Hneq). reflexivity.
  - intros cb h. apply timer_fires_idle.
    + apply reachable_timer_matches_slot, reachable_step, Hs.
    + apply reachable_closed_by_end_poll_now, Hs.
Qed.

Lemma timeout_closes_its_poll_witness :
  step (timer_fires 0) voted_once
  = (mkState None [computeResults (deactivate poll_voted_once)] None None []
             1,
     mkOutput [] [poll_ended (computeResults (deactivate poll_voted_once))
                             timeout] Returned)
  /\ step (timer_fires 0) initial = (initial, silent).
Proof.
  destruct (timeout_closes_its_poll voted_once reachable_voted_once)
    as (_ & Hfire & _).
  destruct (timeout_closes_its_poll initial reachable_initial)
    as (Hidle & _).
  split.
  - apply (Hfire poll_voted_once 0 eq_refl eq_refl).
  - apply Hidle. reflexivity.
Defined.

(** ** Closing a poll by hand *)

(** X6. In a reachable state, [end-poll-now] on an empty slot is answered
    with [NoActivePoll] and changes nothing.  With a poll in the slot it
    empties the slot and [endTimer], cancels the scheduled timeout, puts the
    final snapshot in front of the history (cut to 50 entries), broadcasts
    [poll-ended] with that snapshot and the reason [manual], and answers
    [{success: true}].  A poll is closed once: after a close by hand or by
    timeout, a further [end-poll-now] and any vote are answered with
    [NoActivePoll] and add nothing to the history. *)
Theorem end_poll_now_closes_once (s : state) :
  reachable s ->
  (currentPoll s = None ->
   forall cb, step (end_poll_now cb) s = (s, replied cb NoActivePoll))
  /\ (forall p cb,
        currentPoll s = Some p ->
        step (end_poll_now cb) s
        = (mkState None
                   (firstn 50 (computeResults (deactivate p) :: previousPolls s))
                   None (teacherSocketId s) [] (nextHandle s),
           mkOutput (respond cb Success)
                    [poll_ended (computeResults (deactivate p)) manual]
                    Returned))
  /\ (forall e cb v,
        e = end_poll_now cb \/ (exists h, e = timer_fires h
                                          /\ endTimer s = Some h) ->
        forall cb',
          step (end_poll_now cb') (fst (step e s))
          = (fst (step e s), replied cb' NoActivePoll)
          /\ step (vote (Some v) cb') (fst (step e s))
             = (fst (step e s), replied cb' NoActivePoll)).
Proof.
  intro Hs. pose proof (reachable_timer_matches_slot s Hs) as Hinv.
  split; [|split].
  - intros Hp cb. apply end_poll_now_idle. exact Hp.
  - intros p cb Hp.
    destruct (timer_matches_slot_poll s p Hinv Hp) as (h & Ht & Hsch).
    simpl. unfold on_end_poll_now, poll_is_active.
    rewrite Hp, (reachable_slot_active s Hs p Hp). simpl.
    rewrite (finishCurrentPoll_closes manual s p h Hp Ht)
      by (rewrite Hsch; intros t [<-|[]]; reflexivity).
    rewrite (remember_firstn _ _ (reachable_history_bounded s Hs)).
    reflexivity.
  - intros e cb v He cb'.
    assert (Hclosed : currentPoll (fst (step e s)) = None).
    { destruct He as [->|(h & -> & Ht)].
      - apply reachable_closed_by_end_poll_now, Hs.
      - simpl. unfold on_timer.
        destruct (existsb _ (scheduled s)) eqn:Hex.
        + close_with finishCurrentPoll_discards. exact Hclose.
        + simpl. destruct (currentPoll s) as [p|] eqn:Hp; [|reflexivity].
          destruct (timer_matches_slot_poll s p Hinv Hp) as (h0 & Ht0 & Hsch).
          rewrite Ht in Ht0. injection Ht0 as <-.
          rewrite Hsch in Hex. simpl in Hex. rewrite Nat.eqb_refl in Hex.
          discriminate. }
    split.
    + apply end_poll_now_idle. exact Hclosed.
    + apply (vote_idle (Some v)). exact Hclosed.
Qed.

Lemma end_poll_now_closes_once_witness :
  step (end_poll_now true) initial = (initial, replied true NoActivePoll)
  /\ step (end_poll_now true) voted_once
     = (mkState None [computeResults (deactivate poll_voted_once)] None None
                [] 1,
        mkOutput [Success]
                 [poll_ended (computeResults (deactivate poll_voted_once))
                             manual] Returned)
  /\ step (end_poll_now true) (fst (step (timer_fires 0) voted_once))
     = (fst (step (timer_fires 0) voted_once), replied true NoActivePoll).
Proof.
  destruct (end_poll_now_closes_once initial reachable_initial)
    as (Hidle & _).
  destruct (end_poll_now_closes_once voted_once reachable_voted_once)
    as (_ & Hclose & Honce).
  split; [apply Hidle; reflexivity|].
  split; [apply (Hclose poll_voted_once true); reflexivity|].
  apply (Honce (timer_fires 0) true (ballot "p1" "0" JNull)).
  right. exists 0. split; reflexivity.
Defined.

(** ** Creating a poll on an idle server *)

Lemma new_options_no_votes (texts : list jsval) (k : nat) (o : PollOption.t) :
  In o (map_from new_option k texts) -> PollOption.votes o = 0.
Proof.
  revert k. induction texts as [|t rest IH]; intros k Ho; simpl in Ho.
  - destruct Ho.
  - destruct Ho as [<-|Ho]; [reflexivity | apply (IH _ Ho)].
Qed.

(** X7. In a reachable state with an empty slot, [create-poll] with an
    array of option texts puts the poll built by [createPoll] in the slot,
    schedules one timeout of [duration * 1000] milliseconds under a fresh
    handle that it stores in [endTimer], and leaves the history and the
    teacher slot alone.  The snapshot it broadcasts with [new-poll] is the
    one it hands to the callback: no votes, every percentage 0, one entry
    per option text. *)
Theorem create_poll_on_idle_server
    (s : state) (pl : CreatePayload.t) (texts : list jsval) (cb : bool)
    (uuid : string) (now : Z) :
  reachable s ->
  currentPoll s = None ->
  CreatePayload.options pl = JArr texts ->
  exists p,
    createPoll (Some pl) uuid now = inr p
    /\ step (create_poll (Some pl) cb uuid now) s
       = (mkState (Some p) (previousPolls s) (Some (nextHandle s))
                  (teacherSocketId s)
                  [(nextHandle s, (Poll.duration p * 1000)%Z)]
                  (S (nextHandle s)),
          mkOutput (respond cb (SuccessPoll (computeResults p)))
                   [new_poll (computeResults p)] Returned)
    /\ Results.total (computeResults p) = 0
    /\ Forall (fun r => ResultOption.votes r = 0 /\ ResultOption.pct r = 0%Z)
              (Results.options (computeResults p))
    /\ List.length (Results.options (computeResults p)) = List.length texts.
Proof.
  intros Hs Hp Hopt.
  destruct (timer_matches_slot_empty s (reachable_timer_matches_slot s Hs) Hp)
    as (Ht & Hsch).
  pose proof (createPoll_array pl texts uuid now Hopt) as Hc.
  eexists. split; [exact Hc|]. split; [|split; [|split]].
  - simpl. unfold on_create_poll, poll_is_active. rewrite Hp, Hc. simpl.
    unfold clear_endTimer, arm_endTimer. simpl. rewrite Ht. simpl.
    rewrite Hsch. reflexivity.
  - apply (computeResults_fresh _ _ _ _ Hc).
  - destruct (computeResults_fresh _ _ _ _ Hc) as (_ & Hpct).
    rewrite Forall_forall in Hpct |- *. intros r Hr. split; [|apply Hpct, Hr].
    simpl in Hr. apply in_map_iff in Hr. destruct Hr as (o & <- & Ho). simpl.
    apply (new_options_no_votes texts 0 o Ho).
  - simpl. rewrite length_map. unfold mapi. apply map_from_length.
Qed.

Lemma create_poll_on_idle_server_witness :
  exists p,
    createPoll (Some two_options) "p1" 1000%Z = inr p
    /\ scheduled created = [(0, 1000%Z)]
    /\ Results.total (computeResults p) = 0.
Proof.
  destruct (create_poll_on_idle_server
              initial two_options [JStr "A"; JStr "B"] true "p1" 1000%Z
              reachable_initial eq_refl eq_refl)
    as (p & Hc & _ & Htotal & _).
  exists p. split; [exact Hc|]. split; [reflexivity | exact Htotal].
Defined.

(** ** The teacher slot grants nothing *)

Lemma finishCurrentPoll_ignores_teacher (why : reason) cp pp et t1 t2 sc nh :
  snd (finishCurrentPoll why (mkState cp pp et t1 sc nh))
  = snd (finishCurrentPoll why (mkState cp pp et t2 sc nh))
  /\ poll_part (fst (finishCurrentPoll why (mkState cp pp et t1 sc nh)))
     = poll_part (fst (finishCurrentPoll why (mkState cp pp et t2 sc nh))).
Proof.
  unfold finishCurrentPoll, clear_endTimer. simpl.
  destruct cp as [p|]; simpl; [|split; reflexivity].
  destruct et; split; reflexivity.
Qed.

Lemma step_ignores_teacher (e : event) (s1 s2 : state) :
  poll_part s1 = poll_part s2 ->
  snd (step e s1) = snd (step e s2)
  /\ poll_part (fst (step e s1)) = poll_part (fst (step e s2)).
Proof.
  destruct s1 as [cp pp et t1 sc nh], s2 as [cp2 pp2 et2 t2 sc2 nh2].
  unfold poll_part. simpl. intro H. injection H as -> -> -> -> ->.
  handler_cases e.
  - split; reflexivity.
  - unfold on_create_poll, poll_is_active. simpl.
    destruct (match cp2 with Some p => Poll.active p | None => false end);
      [split; reflexivity|].
    destruct (createPoll payload uuid now); [split; reflexivity|].
    unfold clear_endTimer, arm_endTimer. simpl.
    destruct et2; split; reflexivity.
  - unfold on_vote. simpl. destruct payload as [v|]; [|split; reflexivity].
    destruct cp2 as [p|]; [|split; reflexivity].
    destruct (negb (Poll.active p) || negb (strict_eq_string _ _));
      [split; reflexivity|].
    destruct (Set_has _ _); [split; reflexivity|].
    destruct (find_index _ _); split; reflexivity.
  - unfold on_end_poll_now, poll_is_active. simpl.
    destruct (match cp2 with Some p => Poll.active p | None => false end);
      simpl; [|split; reflexivity].
    destruct (finishCurrentPoll_ignores_teacher manual cp2 pp2 et2 t1 t2
                sc2 nh2) as [Hout Hst].
    destruct (finishCurrentPoll manual (mkState cp2 pp2 et2 t1 sc2 nh2)),
             (finishCurrentPoll manual (mkState cp2 pp2 et2 t2 sc2 nh2)).
    simpl in *. subst. split; [reflexivity | exact Hst].
  - unfold on_remove_student. destruct payload; split; reflexivity.
  - unfold on_get_current_poll, remainingSeconds. simpl.
    destruct cp2; split; reflexivity.
  - unfold on_disconnect. simpl.
    destruct t1 as [a|], t2 as [b|];
      try destruct (String.eqb sid a); try destruct (String.eqb sid b);
      split; reflexivity.
  - unfold on_timer. simpl.
    destruct (existsb _ sc2); [|split; reflexivity].
    destruct (finishCurrentPoll_ignores_teacher timeout cp2 pp2 et2 t1 t2
                (clearTimeout h sc2) nh2) as [Hout Hst].
    destruct (finishCurrentPoll timeout
                (mkState cp2 pp2 et2 t1 (clearTimeout h sc2) nh2)),
             (finishCurrentPoll timeout
                (mkState cp2 pp2 et2 t2 (clearTimeout h sc2) nh2)).
    simpl in *. subst. split; [reflexivity | exact Hst].
Qed.

(** X9. No handler consults the teacher slot: whatever [teacherSocketId]
    holds, every event is answered with the same acknowledgment, the same
    broadcasts and the same outcome, and has the same effect on the poll,
    the history and the timers.  A client that never registered as teacher
    can create and close polls. *)
Theorem teacher_slot_is_never_consulted (e : event) (s1 s2 : state) :
  poll_part s1 = poll_part s2 ->
  snd (step e s1) = snd (step e s2)
  /\ poll_part (fst (step e s1)) = poll_part (fst (step e s2)).
Proof. apply step_ignores_teacher. Qed.

Lemma teacher_slot_is_never_consulted_witness :
  snd (step (end_poll_now true)
            (fst (step (register_teacher "teacher") voted_once)))
  = snd (step (end_poll_now true) voted_once).
Proof.
  apply (teacher_slot_is_never_consulted
           (end_poll_now true)
           (fst (step (register_teacher "teacher") voted_once))
           voted_once).
  reflexivity.
Defined.

Lemma passive_step (e : event) (s : state) :
  concerns_poll e = false -> poll_part (fst (step e s)) = poll_part s.
Proof.
  intro He. handler_cases e; try discriminate.
  - reflexivity.
  - unfold on_remove_student. destruct payload; reflexivity.
  - unfold on_get_current_poll. destruct (currentPoll s); reflexivity.
  - unfold on_disconnect. destruct (teacherSocketId s) as [t|];
      [destruct (String.eqb sid t)|]; reflexivity.
Qed.

Lemma run_without_passive_events (es : list event) (s1 s2 : state) :
  poll_part s1 = poll_part s2 ->
  poll_part (fst (run es s1))
  = poll_part (fst (run (filter concerns_poll es) s2)).
Proof.
  revert s1 s2. induction es as [|e rest IH]; intros s1 s2 Hsame; simpl.
  - exact Hsame.
  - destruct (concerns_poll e) eqn:He; simpl.
    + destruct (step_ignores_teacher e s1 s2 Hsame) as [_ Hnext].
      destruct (step e s1) as [s1' o1], (step e s2) as [s2' o2].
      simpl in Hnext. specialize (IH s1' s2' Hnext).
      destruct (run rest s1'), (run (filter concerns_poll rest) s2').
      exact IH.
    + pose proof (passive_step e s1 He) as Hkeep.
      destruct (step e s1) as [s1' o1]. simpl in Hkeep.
      assert (Hnext : poll_part s1' = poll_part s2) by congruence.
      specialize (IH s1' s2 Hnext).
      destruct (run rest s1'). exact IH.
Qed.

(** X10. [register-teacher], [disconnect], [remove-student] and
    [get-current-poll] are invisible to the poll: leaving them out of any
    sequence of events changes nothing in the poll, the history and the
    timers at the end of the sequence.  In particular a student announced
    as removed stays in the submissions, with the vote counted. *)
Theorem passive_events_are_invisible (es : list event) (s : state) :
  poll_part (fst (run es s))
  = poll_part (fst (run (filter concerns_poll es) s)).
Proof. apply run_without_passive_events. reflexivity. Qed.

(** ** Snapshots *)

Lemma fold_result_votes (f : PollOption.t -> ResultOption.t)
    (opts : list PollOption.t) (a : nat) :
  (forall o, ResultOption.votes (f o) = PollOption.votes o) ->
  fold_left (fun s r => s + ResultOption.votes r) (map f opts) a
  = fold_left (fun s o => s + PollOption.votes o) opts a.
Proof.
  intro Hf. revert a. induction opts as [|o rest IH]; intro a; simpl.
  - reflexivity.
  - rewrite Hf. apply IH.
Qed.

Lemma computeResults_consistent (p : Poll.t) :
  snapshot_consistent (computeResults p).
Proof.
  unfold snapshot_consistent, computeResults. simpl.
  rewrite fold_result_votes by reflexivity. reflexivity.
Qed.

Lemma computeResults_deactivate (p : Poll.t) :
  computeResults (deactivate p) = computeResults p.
Proof. reflexivity. Qed.

Lemma In_remember (r x : Results.t) (history : list Results.t) :
  In x (remember r history) -> x = r \/ In x history.
Proof.
  unfold remember.
  destruct (Nat.ltb 50 (List.length (r :: history))).
  - intro Hin.
    assert (Hsub : In x (r :: history)).
    { rewrite removelast_firstn_len in Hin.
      rewrite <- (firstn_skipn (Nat.pred (List.length (r :: history)))
                               (r :: history)).
      apply in_or_app. left. exact Hin. }
    destruct Hsub as [<-|Hx]; [left; reflexivity | right; exact Hx].
  - intros [<-|Hx]; [left; reflexivity | right; exact Hx].
Qed.

Lemma history_consistent_step (e : event) (s : state) :
  Forall snapshot_consistent (previousPolls s) ->
  Forall snapshot_consistent (previousPolls (fst (step e s))).
Proof.
  intro Hs.
  destruct (step_history e s) as [[_ ->]|(p & _ & _ & ->)]; [exact Hs|].
  apply Forall_forall. intros x Hx.
  destruct (In_remember _ _ _ Hx) as [->|Hold].
  - apply computeResults_consistent.
  - rewrite Forall_forall in Hs. apply Hs, Hold.
Qed.

(** X11. In a reachable state the snapshot of the poll in the slot has as
    total the number of recorded voters.  Closing the poll stores and
    broadcasts exactly that snapshot: the entry put at the head of the
    history is the snapshot a query would have returned just before the
    close, with the poll's id and the number of its voters as total. *)
Theorem final_snapshot_counts_voters (s : state) (p : Poll.t) :
  reachable s ->
  currentPoll s = Some p ->
  Results.total (computeResults p) = Set_size (Poll.submissions p)
  /\ Results.id (computeResults p) = Poll.id p
  /\ forall why,
       hd_error (previousPolls (fst (finishCurrentPoll why s)))
       = Some (computeResults p)
       /\ snd (finishCurrentPoll why s) = [poll_ended (computeResults p) why].
Proof.
  intros Hs Hp. split; [|split].
  - apply (reachable_votes_match s Hs p Hp), (reachable_slot_active s Hs p Hp).
  - reflexivity.
  - intro why.
    destruct (finishCurrentPoll_history why s p Hp) as [Hh Hev].
    rewrite Hh, Hev, computeResults_deactivate.
    rewrite (remember_firstn _ _ (reachable_history_bounded s Hs)).
    split; reflexivity.
Qed.

Lemma final_snapshot_counts_voters_witness :
  Results.total (computeResults poll_voted_once) = 1
  /\ hd_error (previousPolls (fst (finishCurrentPoll manual voted_once)))
     = Some (computeResults poll_voted_once).
Proof.
  destruct (final_snapshot_counts_voters voted_once poll_voted_once
              reachable_voted_once eq_refl) as (Htotal & _ & Hclose).
  split; [exact Htotal | apply (Hclose manual)].
Defined.

(** X12. Every snapshot kept in the history of a reachable state is
    consistent: its total is the sum of the votes of the options it lists.
    Every event keeps the history consistent. *)
Theorem history_snapshots_are_consistent :
  (forall s, reachable s -> Forall snapshot_consistent (previousPolls s))
  /\ (forall s e,
        Forall snapshot_consistent (previousPolls s) ->
        Forall snapshot_consistent (previousPolls (fst (step e s)))).
Proof.
  split.
  - induction 1 as [|s e _ IH]; [constructor|].
    apply history_consistent_step, IH.
  - intros s e. apply history_consistent_step.
Qed.

Lemma history_snapshots_are_consistent_witness :
  Forall snapshot_consistent
         (previousPolls (fst (step (end_poll_now true) voted_once))).
Proof.
  apply (proj1 history_snapshots_are_consistent).
  apply reachable_step, reachable_voted_once.
Defined.

(** X13. For every poll with at most 200 votes in total, the percentage
    computed for an option is an integer nearest to the exact percentage
    [100 * votes / total] (it is off by at most one half, so only an exact
    tie can go either way), and it lies between 0 and 100. *)
Theorem percentage_is_nearest_upto_200 (votes total : nat) :
  1 <= total <= 200 -> votes <= total ->
  (Z.abs (2 * (Z.of_nat total * percentage votes total
               - 100 * Z.of_nat votes))
   <= Z.of_nat total)%Z
  /\ (0 <= percentage votes total <= 100)%Z.
Proof.
  intros Htotal Hvotes.
  assert (Hall : forallb nearest_upto (seq 1 200) = true)
    by (vm_compute; reflexivity).
  rewrite forallb_forall in Hall.
  assert (Hin : In total (seq 1 200)) by (apply in_seq; lia).
  specialize (Hall total Hin). unfold nearest_upto in Hall.
  rewrite forallb_forall in Hall.
  assert (Hinv : In votes (seq 0 (S total))) by (apply in_seq; lia).
  specialize (Hall votes Hinv). unfold is_nearest in Hall.
  apply Z.leb_le in Hall. split; [exact Hall|].
  revert Hall. generalize (percentage votes total). intros pct Hall. nia.
Qed.

Lemma percentage_is_nearest_upto_200_witness :
  (Z.abs (2 * (Z.of_nat 40 * percentage 23 40 - 100 * Z.of_nat 23))
   <= Z.of_nat 40)%Z
  /\ (0 <= percentage 23 40 <= 100)%Z.
Proof. apply (percentage_is_nearest_upto_200 23 40); lia. Defined.

(** ** Many voters *)

Lemma same_value_zero_eq (a b : jsval) :
  same_value_zero a b = true -> a = b.
Proof.
  destruct a, b; simpl; try discriminate; intro H; try reflexivity.
  - apply Bool.eqb_prop in H. subst. reflexivity.
  - apply Z.eqb_eq in H. subst. reflexivity.
  - apply String.eqb_eq in H. subst. reflexivity.
Qed.

Lemma Set_has_after_other (s : jsset) (a b : jsval) :
  a <> b -> Set_has (Set_add s a) b = Set_has s b.
Proof.
  intro Hneq. unfold Set_add. destruct (Set_has s a); [reflexivity|].
  unfold Set_has. rewrite existsb_app. simpl.
  destruct (same_value_zero a b) eqn:Heq.
  - apply same_value_zero_eq in Heq. contradiction.
  - rewrite !orb_false_r. reflexivity.
Qed.

Lemma option_exists_count_vote (i : nat) (studentId optionId : jsval)
    (p : Poll.t) :
  option_exists p optionId ->
  option_exists (count_vote i studentId p) optionId.
Proof.
  intros (o & Hin & Ho). apply In_nth_error in Hin. destruct Hin as [j Hj].
  pose proof (update_at_nth_error i j one_more_vote (Poll.options p)) as Hnth.
  rewrite Hj in Hnth. unfold option_exists. simpl.
  destruct (Nat.eqb j i); simpl in Hnth;
    eexists; (split; [eapply nth_error_In; exact Hnth | exact Ho]).
Qed.

Lemma admitted_vote (s : state) (p : Poll.t) (v : VotePayload.t) (cb : bool) :
  currentPoll s = Some p ->
  Poll.active p = true ->
  strict_eq_string (Poll.id p) (VotePayload.pollId v) = true ->
  Set_has (Poll.submissions p) (VotePayload.studentId v) = false ->
  option_exists p (VotePayload.optionId v) ->
  exists i,
    find_index (fun o => strict_eq_string (PollOption.id o)
                                          (VotePayload.optionId v))
               (Poll.options p) = Some i
    /\ step (vote (Some v) cb) s
       = (set_currentPoll
            (Some (count_vote i (VotePayload.studentId v) p)) s,
          mkOutput (respond cb Success)
            [poll_update
               (computeResults (count_vote i (VotePayload.studentId v) p))]
            (log_vote (VotePayload.studentName v)
                      (text_at i (Poll.options p)))).
Proof.
  intros Hp Hact Hid Hnew Hopt.
  destruct (find_index_some _ _ Hopt) as [i Hfind].
  exists i. split; [exact Hfind|].
  simpl. unfold on_vote. rewrite Hp, Hact, Hid, Hnew. simpl.
  rewrite Hfind. reflexivity.
Qed.

(** Votes that carry the poll's id, the id of an existing option and
    pairwise different voters not yet in the submissions, by induction on
    their list. *)
Lemma run_votes_of (vs : list (VotePayload.t * bool)) :
  forall (s : state) (p : Poll.t),
    currentPoll s = Some p ->
    Poll.active p = true ->
    Forall (fun vc =>
              strict_eq_string (Poll.id p) (VotePayload.pollId (fst vc)) = true
              /\ option_exists p (VotePayload.optionId (fst vc))
              /\ Set_has (Poll.submissions p)
                         (VotePayload.studentId (fst vc)) = false) vs ->
    NoDup (map (fun vc => VotePayload.studentId (fst vc)) vs) ->
    exists p',
      currentPoll (fst (run (votes_of vs) s)) = Some p'
      /\ sum_votes (Poll.options p')
         = sum_votes (Poll.options p) + List.length vs
      /\ Poll.submissions p'
         = Poll.submissions p
           ++ map (fun vc => VotePayload.studentId (fst vc)) vs
      /\ map acks (snd (run (votes_of vs) s))
         = map (fun vc => respond (snd vc) Success) vs.
Proof.
  induction vs as [|[v cb] rest IH]; intros s p Hp Hact Hall Hdistinct.
  - exists p. simpl. rewrite app_nil_r, Nat.add_0_r. repeat split. exact Hp.
  - inversion Hall as [|vc l (Hid & Hopt & Hnew) Hrest]; subst. simpl in *.
    inversion Hdistinct as [|x l Hnotin Hnodup]; subst.
    destruct (admitted_vote s p v cb Hp Hact Hid Hnew Hopt)
      as (i & Hfind & Hstep).
    unfold votes_of. simpl. simpl in Hstep. rewrite Hstep.
    set (p1 := count_vote i (VotePayload.studentId v) p).
    destruct (IH (set_currentPoll (Some p1) s) p1 eq_refl Hact)
      as (p' & Hp' & Hsum & Hsub & Hacks).
    + apply Forall_forall. intros vc Hvc.
      rewrite Forall_forall in Hrest.
      destruct (Hrest vc Hvc) as (Hid' & Hopt' & Hnew').
      split; [exact Hid'|]. split.
      * apply option_exists_count_vote. exact Hopt'.
      * subst p1. simpl. rewrite Set_has_after_other; [exact Hnew'|].
        intro Heq. apply Hnotin. rewrite Heq.
        apply (in_map (fun vc => VotePayload.studentId (fst vc))). exact Hvc.
    + exact Hnodup.
    + fold (votes_of rest).
      destruct (run (votes_of rest) (set_currentPoll (Some p1) s))
        as [s2 os].
      simpl in *. exists p'. split; [exact Hp'|]. split; [|split].
      * rewrite Hsum. subst p1. simpl.
        rewrite (sum_votes_update_at _ _ _ Hfind). lia.
      * rewrite Hsub. subst p1. simpl. unfold Set_add. rewrite Hnew.
        rewrite <- app_assoc. reflexivity.
      * rewrite Hacks. reflexivity.
Qed.

(** X14. When a list of votes is sent to an active poll, each with the
    poll's id, the id of an existing option and a voter not yet in the
    submissions, and no two of them with the same voter, then all of them
    are admitted: each is answered with [{success: true}], the vote total
    grows by the number of votes, and the voters are appended to the
    submissions in the order of their votes. *)
Theorem distinct_voters_are_all_counted
    (s : state) (p : Poll.t) (vs : list (VotePayload.t * bool)) :
  currentPoll s = Some p ->
  Poll.active p = true ->
  Forall (fun vc =>
            strict_eq_string (Poll.id p) (VotePayload.pollId (fst vc)) = true
            /\ option_exists p (VotePayload.optionId (fst vc))
            /\ Set_has (Poll.submissions p)
                       (VotePayload.studentId (fst vc)) = false) vs ->
  NoDup (map (fun vc => VotePayload.studentId (fst vc)) vs) ->
  exists p',
    currentPoll (fst (run (votes_of vs) s)) = Some p'
    /\ sum_votes (Poll.options p')
       = sum_votes (Poll.options p) + List.length vs
    /\ Poll.submissions p'
       = Poll.submissions p
         ++ map (fun vc => VotePayload.studentId (fst vc)) vs
    /\ map acks (snd (run (votes_of vs) s))
       = map (fun vc => respond (snd vc) Success) vs.
Proof. intros Hp Hact Hall Hdistinct. eapply run_votes_of; eassumption. Qed.

Lemma distinct_voters_are_all_counted_witness :
  exists p',
    currentPoll
      (fst (run (votes_of [(ballot "p1" "1" (JStr "s2"), true);
                           (ballot "p1" "1" (JObj []), false)])
                voted_once)) = Some p'
    /\ sum_votes (Poll.options p') = 3
    /\ Poll.submissions p' = [JStr "s1"; JStr "s2"; JObj []].
Proof.
  destruct (distinct_voters_are_all_counted
              voted_once poll_voted_once
              [(ballot "p1" "1" (JStr "s2"), true);
               (ballot "p1" "1" (JObj []), false)]
              eq_refl eq_refl)
    as (p' & Hp' & Hsum & Hsub & _).
  - assert (Hopt : option_exists poll_voted_once (JStr "1")).
    { exists (PollOption.mk "1" (JStr "B") 0).
      split; [right; left; reflexivity | reflexivity]. }
    apply Forall_cons; [repeat split; exact Hopt|].
    apply Forall_cons; [repeat split; exact Hopt|]. apply Forall_nil.
  - apply NoDup_cons; [intros [Heq|[]]; discriminate|].
    apply NoDup_cons; [intros []|]. apply NoDup_nil.
  - exists p'. split; [exact Hp'|]. split; [exact Hsum | exact Hsub].
Defined.

(** ** What never happens to a poll *)

Lemma Forall2_update_at {A : Type} (R : A -> A -> Prop) (i : nat)
    (f : A -> A) (xs : list A) :
  (forall x, R x x) -> (forall x, R x (f x)) ->
  Forall2 R xs (update_at i f xs).
Proof.
  intros Hrefl Hf. revert i. induction xs as [|x rest IH]; intro i.
  - destruct i; constructor.
  - destruct i; simpl; constructor; auto.
    clear IH. induction rest; constructor; auto.
Qed.

Lemma Forall2_same {A : Type} (R : A -> A -> Prop) (xs : list A) :
  (forall x, R x x) -> Forall2 R xs xs.
Proof. intro Hrefl. induction xs; constructor; auto. Qed.

(** X15. In a reachable state, whatever event comes, a poll that is in the
    slot before and after it keeps its id, question, start time, duration
    and [active] flag and the ids and texts of its options in their order;
    no counter decreases and each grows by at most one; and the submissions
    either stay the same or get one voter appended.  A poll is never
    replaced by another while it is in the slot, votes are never taken back
    and voters are never removed. *)
Theorem poll_changes_only_by_votes
    (s : state) (e : event) (p p' : Poll.t) :
  reachable s ->
  currentPoll s = Some p ->
  currentPoll (fst (step e s)) = Some p' ->
  (Poll.id p', Poll.question p', Poll.startedAt p', Poll.duration p',
   Poll.active p')
  = (Poll.id p, Poll.question p, Poll.startedAt p, Poll.duration p,
     Poll.active p)
  /\ map PollOption.id (Poll.options p') = map PollOption.id (Poll.options p)
  /\ map PollOption.text (Poll.options p')
     = map PollOption.text (Poll.options p)
  /\ Forall2 (fun o o' => PollOption.votes o <= PollOption.votes o'
                          <= PollOption.votes o + 1)
             (Poll.options p) (Poll.options p')
  /\ (Poll.submissions p' = Poll.submissions p
      \/ exists voter, Poll.submissions p' = Poll.submissions p ++ [voter]).
Proof.
  intros Hs Hp Hp'.
  pose proof (step_slot_change e s) as Hch. rewrite Hp' in Hch.
  inversion Hch; subst.
  - assert (p' = p) by congruence. subst p'.
    repeat split; [apply Forall2_same; intro; lia | left; reflexivity].
  - match goal with
    | Hidle : poll_is_active s = false |- _ =>
        unfold poll_is_active in Hidle; rewrite Hp in Hidle;
        rewrite (reachable_slot_active s Hs p Hp) in Hidle; discriminate
    end.
  - match goal with
    | Hq : currentPoll s = Some ?q |- _ =>
        assert (q = p) by congruence; subst q
    end.
    simpl. repeat split.
    + apply update_at_map. reflexivity.
    + apply update_at_map. reflexivity.
    + apply Forall2_update_at; intro; simpl; lia.
    + match goal with
      | Hnew : Set_has _ _ = false |- _ =>
          right; eexists; unfold Set_add; rewrite Hnew; reflexivity
      end.
Qed.

Lemma poll_changes_only_by_votes_witness :
  exists p',
    currentPoll (fst (step (vote (Some (ballot "p1" "1" (JStr "s2"))) true)
                           voted_once)) = Some p'
    /\ Poll.id p' = "p1"
    /\ map PollOption.id (Poll.options p') = ["0"; "1"].
Proof.
  eexists. split; [reflexivity|].
  destruct (poll_changes_only_by_votes
              voted_once (vote (Some (ballot "p1" "1" (JStr "s2"))) true)
              poll_voted_once _ reachable_voted_once eq_refl eq_refl)
    as (Hsame & Hids & _).
  split; [|exact Hids].
  exact (f_equal (fun t => fst (fst (fst (fst t)))) Hsame).
Defined.

(** ** Refusals and broadcasts *)

Lemma finishCurrentPoll_events (why : reason) (s : state) :
  (currentPoll s = None /\ finishCurrentPoll why s = (s, []))
  \/ (exists p, currentPoll s = Some p
                /\ snd (finishCurrentPoll why s)
                   = [poll_ended (computeResults p) why]).
Proof.
  destruct (currentPoll s) as [p|] eqn:Hp.
  - right. exists p. split; [reflexivity|].
    apply (finishCurrentPoll_history why s p Hp).
  - left. split; [reflexivity|]. apply finishCurrentPoll_idle, Hp.
Qed.

Lemma respond_at_most_one (cb : bool) (a : ack) :
  List.length (respond cb a) <= 1.
Proof. destruct cb; simpl; lia. Qed.

Lemma In_respond (cb : bool) (a b : ack) : In a (respond cb b) -> a = b.
Proof. destruct cb; simpl; [intros [H|[]]; symmetry; exact H | intros []]. Qed.

(** X16. A handler hands its callback at most one acknowledgment and
    broadcasts at most one event.  Whenever the acknowledgment is a failure
    [{success: false, message}], the handler has changed nothing in the
    state and has broadcast nothing, and the message is one of 'A poll is
    already active.', 'No active poll', 'Already voted' and 'Invalid
    option'. *)
Theorem refusals_change_nothing :
  (forall e s,
     List.length (acks (snd (step e s))) <= 1
     /\ List.length (emitted (snd (step e s))) <= 1)
  /\ (forall e s message,
        In (Failure message) (acks (snd (step e s))) ->
        fst (step e s) = s
        /\ emitted (snd (step e s)) = []
        /\ In (Failure message)
              [PollInUse; NoActivePoll; DuplicateVote; InvalidOption]).
Proof.
  split.
  - intros e s. handler_cases e.
    + split; lia.
    + unfold on_create_poll. destruct (poll_is_active s);
        [|destruct (createPoll payload uuid now)]; simpl;
        try (split; [apply respond_at_most_one | lia]); split; lia.
    + unfold on_vote. destruct payload as [v|]; [|simpl; split; lia].
      destruct (currentPoll s) as [p|];
        [|simpl; split; [apply respond_at_most_one | lia]].
      destruct (negb (Poll.active p) || negb (strict_eq_string _ _));
        [simpl; split; [apply respond_at_most_one | lia]|].
      destruct (Set_has _ _);
        [simpl; split; [apply respond_at_most_one | lia]|].
      destruct (find_index _ _); simpl;
        (split; [apply respond_at_most_one | lia]).
    + unfold on_end_poll_now. destruct (poll_is_active s); simpl;
        [|split; [apply respond_at_most_one | lia]].
      destruct (finishCurrentPoll_events manual s)
        as [[_ Hev]|(p & _ & Hev)];
        destruct (finishCurrentPoll manual s) as [s' evs]; simpl in *;
        [injection Hev as _ -> | subst evs]; simpl;
        (split; [apply respond_at_most_one | lia]).
    + unfold on_remove_student. destruct payload; simpl;
        [split; [apply respond_at_most_one | lia] | split; lia].
    + unfold on_get_current_poll. destruct (currentPoll s); simpl;
        (split; [apply respond_at_most_one | lia]).
    + unfold on_disconnect. destruct (teacherSocketId s) as [t|];
        [destruct (String.eqb sid t)|]; simpl; split; lia.
    + unfold on_timer. destruct (existsb _ (scheduled s)); [|simpl; split; lia].
      match goal with
      | |- context [finishCurrentPoll timeout ?f] =>
          destruct (finishCurrentPoll_events timeout f)
            as [[_ Hev]|(p & _ & Hev)];
          destruct (finishCurrentPoll timeout f) as [s' evs]
      end; simpl in *;
        [injection Hev as _ -> | subst evs]; simpl; split; lia.
  - intros e s message. handler_cases e.
    + intros [].
    + unfold on_create_poll. destruct (poll_is_active s);
        [|destruct (createPoll payload uuid now)]; simpl; intro Hin;
        try contradiction; apply In_respond in Hin; try discriminate.
      repeat split. rewrite Hin. simpl. tauto.
    + unfold on_vote. destruct payload as [v|]; [|intros []].
      destruct (currentPoll s) as [p|];
        [|simpl; intro Hin; apply In_respond in Hin; repeat split;
          rewrite Hin; simpl; tauto].
      destruct (negb (Poll.active p) || negb (strict_eq_string _ _));
        [simpl; intro Hin; apply In_respond in Hin; repeat split;
         rewrite Hin; simpl; tauto|].
      destruct (Set_has _ _);
        [simpl; intro Hin; apply In_respond in Hin; repeat split;
         rewrite Hin; simpl; tauto|].
      destruct (find_index _ _); simpl; intro Hin; apply In_respond in Hin;
        [discriminate | repeat split; rewrite Hin; simpl; tauto].
    + unfold on_end_poll_now. destruct (poll_is_active s); simpl.
      * destruct (finishCurrentPoll manual s) as [s' evs]. simpl.
        intro Hin. apply In_respond in Hin. discriminate.
      * intro Hin. apply In_respond in Hin. repeat split.
        rewrite Hin. simpl. tauto.
    + unfold on_remove_student. destruct payload; simpl; intro Hin;
        [apply In_respond in Hin; discriminate | contradiction].
    + unfold on_get_current_poll. destruct (currentPoll s); simpl;
        intro Hin; apply In_respond in Hin; discriminate.
    + unfold on_disconnect. destruct (teacherSocketId s) as [t|];
        [destruct (String.eqb sid t)|]; intros [].
    + unfold on_timer. destruct (existsb _ (scheduled s)); [|intros []].
      match goal with
      | |- context [finishCurrentPoll timeout ?f] =>
          destruct (finishCurrentPoll timeout f) as [s' evs]
      end.
      intros [].
Qed.

Lemma refusals_change_nothing_witness :
  fst (step (vote (Some (ballot "p1" "0" (JStr "s1"))) true) voted_once)
  = voted_once.
Proof.
  apply (proj2 refusals_change_nothing
               (vote (Some (ballot "p1" "0" (JStr "s1"))) true) voted_once
               "Already voted").
  left. reflexivity.
Defined.

Lemma emitted_live_snapshot (e : event) (s : state) (r : Results.t) :
  In (new_poll r) (emitted (snd (step e s)))
  \/ In (poll_update r) (emitted (snd (step e s))) ->
  exists p, currentPoll (fst (step e s)) = Some p /\ r = computeResults p.
Proof.
  handler_cases e.
  - intros [[]|[]].
  - unfold on_create_poll. destruct (poll_is_active s); [intros [[]|[]]|].
    destruct (createPoll payload uuid now) as [err|p]; [intros [[]|[]]|].
    simpl. autorewrite with clear_endTimer. simpl.
    intros [[H|[]]|[H|[]]]; [|discriminate].
    injection H as <-. exists p. split; reflexivity.
  - unfold on_vote. destruct payload as [v|]; [|intros [[]|[]]].
    destruct (currentPoll s) as [p|]; [|intros [[]|[]]].
    destruct (negb (Poll.active p) || negb (strict_eq_string _ _));
      [intros [[]|[]]|].
    destruct (Set_has _ _); [intros [[]|[]]|].
    destruct (find_index _ _) as [i|]; [|intros [[]|[]]].
    simpl. intros [[H|[]]|[H|[]]]; [discriminate|].
    injection H as <-. eexists. split; reflexivity.
  - unfold on_end_poll_now. destruct (poll_is_active s); [|intros [[]|[]]].
    destruct (finishCurrentPoll_events manual s) as [[_ Hev]|(p & _ & Hev)];
      destruct (finishCurrentPoll manual s) as [s' evs]; simpl in *;
      [injection Hev as _ -> | subst evs]; simpl;
      intros [H|H]; repeat (destruct H as [H|H]; try discriminate);
      contradiction.
  - unfold on_remove_student. destruct payload; simpl;
      intros [H|H]; repeat (destruct H as [H|H]; try discriminate);
      contradiction.
  - unfold on_get_current_poll. destruct (currentPoll s); intros [[]|[]].
  - unfold on_disconnect. destruct (teacherSocketId s) as [t|];
      [destruct (String.eqb sid t)|]; intros [[]|[]].
  - unfold on_timer. destruct (existsb _ (scheduled s)); [|intros [[]|[]]].
    match goal with
    | |- context [finishCurrentPoll timeout ?f] =>
        destruct (finishCurrentPoll_events timeout f)
          as [[_ Hev]|(p & _ & Hev)];
        destruct (finishCurrentPoll timeout f) as [s' evs]
    end; simpl in *;
      [injection Hev as _ -> | subst evs]; simpl;
      intros [H|H]; repeat (destruct H as [H|H]; try discriminate);
      contradiction.
Qed.

Lemma step_closes (e : event) (s : state) :
  closed_in (snd (step e s)) <> [] -> currentPoll (fst (step e s)) = None.
Proof.
  handler_cases e; unfold closed_in.
  - intro H. exfalso. apply H. reflexivity.
  - unfold on_create_poll. destruct (poll_is_active s);
      [|destruct (createPoll payload uuid now)]; simpl;
      intro H; exfalso; apply H; reflexivity.
  - unfold on_vote. destruct payload as [v|];
      [|intro H; exfalso; apply H; reflexivity].
    destruct (currentPoll s) as [p|];
      [|intro H; exfalso; apply H; reflexivity].
    destruct (negb (Poll.active p) || negb (strict_eq_string _ _));
      [intro H; exfalso; apply H; reflexivity|].
    destruct (Set_has _ _); [intro H; exfalso; apply H; reflexivity|].
    destruct (find_index _ _); intro H; exfalso; apply H; reflexivity.
  - unfold on_end_poll_now. destruct (poll_is_active s);
      [|intro H; exfalso; apply H; reflexivity].
    close_with finishCurrentPoll_discards. intros _. exact Hclose.
  - unfold on_remove_student. destruct payload;
      intro H; exfalso; apply H; reflexivity.
  - unfold on_get_current_poll. destruct (currentPoll s);
      intro H; exfalso; apply H; reflexivity.
  - unfold on_disconnect. destruct (teacherSocketId s) as [t|];
      [destruct (String.eqb sid t)|]; intro H; exfalso; apply H; reflexivity.
  - unfold on_timer. destruct (existsb _ (scheduled s));
      [|intro H; exfalso; apply H; reflexivity].
    close_with finishCurrentPoll_discards. intros _. exact Hclose.
Qed.

Lemma emitted_final_snapshot (e : event) (s : state) (r : Results.t)
    (why : reason) :
  In (poll_ended r why) (emitted (snd (step e s))) ->
  exists p, currentPoll s = Some p /\ r = computeResults p
            /\ currentPoll (fst (step e s)) = None
            /\ previousPolls (fst (step e s)) = remember r (previousPolls s).
Proof.
  intro Hin.
  assert (Hclosed : In r (closed_in (snd (step e s)))).
  { unfold closed_in. apply in_flat_map.
    exists (poll_ended r why). split; [exact Hin | left; reflexivity]. }
  assert (Hnonempty : closed_in (snd (step e s)) <> []).
  { intro Hnil. rewrite Hnil in Hclosed. destruct Hclosed. }
  destruct (step_history e s) as [[Hnone _]|(p & Hp & Hone & Hhist)].
  - contradiction.
  - rewrite Hone in Hclosed. destruct Hclosed as [<-|[]].
    exists p. rewrite computeResults_deactivate in *.
    split; [exact Hp|]. split; [reflexivity|].
    split; [apply step_closes, Hnonempty | exact Hhist].
Qed.

(** X17. In a reachable state, what a handler broadcasts describes the
    state it leaves.  A snapshot broadcast with [new-poll] or [poll-update]
    is the snapshot of the poll that is in the slot after the event, its
    total is the number of recorded voters, and a [get-current-poll] that
    comes next is answered with the same snapshot and [active = true].  A
    snapshot broadcast with [poll-ended] is the last snapshot of the poll
    that was in the slot; after the event the slot is empty and that
    snapshot is the first entry of the history. *)
Theorem broadcasts_describe_the_state (s : state) (e : event) :
  reachable s ->
  (forall r,
     In (new_poll r) (emitted (snd (step e s)))
     \/ In (poll_update r) (emitted (snd (step e s))) ->
     exists p,
       currentPoll (fst (step e s)) = Some p
       /\ r = computeResults p
       /\ Results.total r = Set_size (Poll.submissions p)
       /\ forall cb now,
            acks (snd (step (get_current_poll cb now) (fst (step e s))))
            = respond cb (Current r true
                            (remainingSeconds now (fst (step e s)))))
  /\ (forall r why,
        In (poll_ended r why) (emitted (snd (step e s))) ->
        currentPoll (fst (step e s)) = None
        /\ hd_error (previousPolls (fst (step e s))) = Some r
        /\ exists p, currentPoll s = Some p /\ r = computeResults p).
Proof.
  intro Hs. pose proof (reachable_step s e Hs) as Hafter. split.
  - intros r Hin.
    destruct (emitted_live_snapshot e s r Hin) as (p & Hp & ->).
    exists p. split; [exact Hp|]. split; [reflexivity|].
    pose proof (reachable_slot_active _ Hafter p Hp) as Hact. split.
    + apply (reachable_votes_match _ Hafter p Hp Hact).
    + intros cb now. simpl. unfold on_get_current_poll.
      rewrite Hp, Hact. reflexivity.
  - intros r why Hin.
    destruct (emitted_final_snapshot e s r why Hin)
      as (p & Hp & -> & Hnone & Hhist).
    split; [exact Hnone|]. split; [|exists p; split; [exact Hp|reflexivity]].
    rewrite Hhist, (remember_firstn _ _ (reachable_history_bounded s Hs)).
    reflexivity.
Qed.

Lemma broadcasts_describe_the_state_witness :
  currentPoll (fst (step (end_poll_now true) voted_once)) = None
  /\ hd_error (previousPolls (fst (step (end_poll_now true) voted_once)))
     = Some (computeResults poll_voted_once).
Proof.
  destruct (proj2 (broadcasts_describe_the_state
                     voted_once (end_poll_now true) reachable_voted_once)
                  (computeResults poll_voted_once) manual
                  (or_introl eq_refl))
    as (Hnone & Hhead & _).
  split; [exact Hnone | exact Hhead].
Defined.

(** ** No voter is recorded twice *)

Lemma Set_has_In (s : jsset) (v : jsval) :
  is_primitive v = true -> In v s -> Set_has s v = true.
Proof.
  intros Hprim Hin. unfold Set_has. apply existsb_exists.
  exists v. split; [exact Hin | apply same_value_zero_refl, Hprim].
Qed.

Lemma NoDup_snoc {A : Type} (xs : list A) (x : A) :
  NoDup xs -> ~ In x xs -> NoDup (xs ++ [x]).
Proof.
  intros Hxs Hx. induction Hxs as [|a rest Ha Hrest IH]; simpl.
  - constructor; [intros [] | constructor].
  - constructor.
    + intro Hin. apply in_app_or in Hin. destruct Hin as [Hin|[<-|[]]].
      * contradiction.
      * apply Hx. left. reflexivity.
    + apply IH. intro Hin. apply Hx. right. exact Hin.
Qed.

Lemma primitive_voters_distinct_step (e : event) (s : state) :
  (forall p, currentPoll s = Some p ->
             NoDup (filter is_primitive (Poll.submissions p))) ->
  forall p, currentPoll (fst (step e s)) = Some p ->
            NoDup (filter is_primitive (Poll.submissions p)).
Proof.
  intros Hs p Hp.
  pose proof (step_slot_change e s) as Hch. rewrite Hp in Hch.
  inversion Hch; subst.
  - apply Hs. assumption.
  - match goal with
    | Hc : createPoll _ _ _ = inr _ |- _ =>
        destruct (createPoll_fresh _ _ _ _ Hc) as (_ & _ & _ & -> & _)
    end.
    constructor.
  - simpl. unfold Set_add.
    match goal with
    | Hnew : Set_has _ ?voter = false, Hq : currentPoll s = Some ?q |- _ =>
        rewrite Hnew, filter_app; simpl;
        pose proof (Hs q Hq) as Hold;
        destruct (is_primitive voter) eqn:Hprim;
        [|rewrite app_nil_r; exact Hold];
        apply NoDup_snoc; [exact Hold|];
        intro Hin; apply filter_In in Hin; destruct Hin as [Hin _];
        rewrite (Set_has_In _ _ Hprim Hin) in Hnew; discriminate
    end.
Qed.

(** X18. In every reachable state no voter identifier that is a primitive
    value (string, number, boolean, null or undefined) occurs twice in the
    submissions of the poll in the slot, whatever votes were sent. *)
Theorem primitive_voters_recorded_once (s : state) (p : Poll.t) :
  reachable s ->
  currentPoll s = Some p ->
  NoDup (filter is_primitive (Poll.submissions p)).
Proof.
  intro Hs. revert p. induction Hs as [|s e _ IH].
  - intros p Hp. discriminate.
  - apply primitive_voters_distinct_step, IH.
Qed.

Lemma primitive_voters_recorded_once_witness :
  NoDup (filter is_primitive (Poll.submissions poll_voted_once)).
Proof.
  apply (primitive_voters_recorded_once voted_once poll_voted_once
           reachable_voted_once).
  reflexivity.
Defined.
